(** * gravswell.quiver: model repository entries and ensemble routing

    A shallow embedding of [gravswell/quiver/model.py],
    [gravswell/quiver/platforms/platform.py] and
    [gravswell/quiver/io/local.py], with the properties of version
    discovery, version export, exposed-tensor validation and ensemble
    routing stated over it. *)

From Stdlib Require Import ZArith String Ascii List Bool Lia DecimalString.
From stdpp Require Import base option list strings gmap.

Local Open Scope Z_scope.
Local Open Scope string_scope.

(** ** Exceptions

    The Python code raises [ValueError] at most failure sites and tells
    them apart by message only.  One constructor stands for each raise
    site (or family of sites), named after the error kind it reports. *)

Inductive error : Type :=
  | ConfigurationError          (* platform.py:98, "Must specify {} shapes" *)
  | InvalidShapeError           (* platform.py:118, variable axis beyond the first *)
  | ShapeMismatchError          (* platform.py:144, platform.py:164, model.py:393 *)
  | DuplicateKeyError           (* model.py:305 and model.py:326 *)
  | KeyConflictError            (* model.py:427 and model.py:453 *)
  | NoExporterError             (* model.py:170, TypeError *)
  | EmptyMaxError               (* model.py:221, max() of an empty sequence *)
  | KeyError (k : string)       (* a dict subscript on a missing key *)
  | AttributeError (a : string) (* model.py:273, an attribute the object lacks *)
  | UnboundLocalError           (* a loop variable read after a loop that never ran *)
  | NoFilesFoundError (p : string)  (* local.py:60 *)
  | OSError (p : string)        (* a failing call into the os module *)
  | RecursionError              (* the interpreter's recursion limit is hit *)
  | ExternalError (tag : string). (* anything raised by an exporter or by config.write *)

#[global] Instance error_eq_dec : EqDecision error.
Proof. solve_decision. Defined.

(** ** Stateful, fallible computations

    A method that mutates [self] and may raise is a function from the
    state before the call to an outcome which keeps the state reached,
    also when an exception leaves the call. *)

Inductive outcome (S A : Type) : Type :=
  | Ok (a : A) (s : S)
  | Raise (e : error) (s : S).

Arguments Ok {S A} a s.
Arguments Raise {S A} e s.

Definition M (S A : Type) : Type := S -> outcome S A.

Definition ret {S A} (a : A) : M S A := fun s => Ok a s.

Definition raise {S A} (e : error) : M S A := fun s => Raise e s.

Definition bind {S A B} (c : M S A) (k : A -> M S B) : M S B :=
  fun s => match c s with
           | Ok a s' => k a s'
           | Raise e s' => Raise e s'
           end.

Definition get {S} : M S S := fun s => Ok s s.

Definition modify {S} (f : S -> S) : M S unit := fun s => Ok tt (f s).

(** [try: body except Exception: handler; raise]-style blocks: the handler
    receives the exception and runs in the state the body left. *)
Definition try_except {S A} (body : M S A) (handler : error -> M S A) : M S A :=
  fun s => match body s with
           | Ok a s' => Ok a s'
           | Raise e s' => handler e s'
           end.

Definition final_state {S A} (o : outcome S A) : S :=
  match o with Ok _ s => s | Raise _ s => s end.

Definition raised {S A} (o : outcome S A) : option error :=
  match o with Ok _ _ => None | Raise e _ => Some e end.

Declare Scope py_scope.
Delimit Scope py_scope with py.
Notation "x <- c ;; k" := (bind c (fun x => k))
  (at level 100, c at next level, right associativity) : py_scope.
Notation "c ;;; k" := (bind c (fun _ => k))
  (at level 100, right associativity) : py_scope.
Local Open Scope py_scope.

(** ** Python values used by the code *)

(** A shape is a tuple of [Optional[int]]; [None] marks a variable axis. *)
Definition shape : Type := list (option Z).

(** [i or -1] on an [Optional[int]]: [None] and [0] are both falsy. *)
Definition or_minus_one (i : option Z) : Z :=
  match i with
  | None => -1
  | Some n => if decide (n = 0) then -1 else n
  end.

(** [key or name] on an [Optional[str]]: [None] and the empty string are
    both falsy. *)
Definition or_name (key : option string) (name : string) : string :=
  match key with
  | None => name
  | Some k => if decide (k = "") then name else k
  end.

(** ** The model configuration

    [gravswell.quiver.model_config.ModelConfig] is not part of the sources
    at hand; what the models need of it is modelled from the
    specification. *)

(** The inference platforms, as [Convention] in platforms/platform.py
    enumerates them. *)
Inductive Platform_kind : Type := ONNX | SAVEDMODEL | TENSORRT | ENSEMBLE.

#[global] Instance Platform_kind_eq_dec : EqDecision Platform_kind.
Proof. solve_decision. Defined.

(** Modelled from the spec: an entry of the configuration's [input] or
    [output] collection, a tensor name with its recorded dims, the variable
    axis standing as -1, and a data type. *)
Record ModelInput : Type := mkTensor {
  tensor_name : string;
  dims : list Z;
  data_type : string
}.

#[global] Instance ModelInput_eq_dec : EqDecision ModelInput.
Proof. solve_decision. Defined.

(** Modelled from the spec: a step is (member model name, member model
    version, input-name-to-routing-key map, output-name-to-routing-key
    map); the version is optional. *)
Record Step : Type := mkStep {
  model_name : string;
  model_version : option Z;
  input_map : gmap string string;
  output_map : gmap string string
}.

#[global] Instance Step_eq_dec : EqDecision Step.
Proof. solve_decision. Defined.

(** Modelled from the spec: the configuration has enumerable [input],
    [output] and [ensemble_scheduling.step] collections. *)
Record Config : Type := mkConfig {
  input : list ModelInput;
  output : list ModelInput;
  step : list Step
}.

#[global] Instance Config_eq_dec : EqDecision Config.
Proof. solve_decision. Defined.

Definition empty_config : Config := mkConfig [] [] [].

Inductive exposed_type : Type := Input | Output.

#[global] Instance exposed_type_eq_dec : EqDecision exposed_type.
Proof. solve_decision. Defined.

(** [getattr(config, exposed_type)] *)
Definition exposed (ty : exposed_type) (c : Config) : list ModelInput :=
  match ty with Input => input c | Output => output c end.

(** Modelled from the spec: [step_map[name]] on a map of a step, where the
    absence of an entry is represented by the empty key. *)
Definition map_get (m : gmap string string) (k : string) : string :=
  default "" (m !! k).

(** Modelled from the spec: [config.add_input(name, shape, dtype)] and
    [config.add_output(name, shape, dtype)] declare a new tensor of that
    name and shape after those already declared. *)
Definition config_add_input (name : string) (sh : shape) (dtype : string)
    (c : Config) : Config :=
  mkConfig (input c ++ [mkTensor name (or_minus_one <$> sh) dtype])
           (output c) (step c).

Definition config_add_output (name : string) (sh : shape) (dtype : string)
    (c : Config) : Config :=
  mkConfig (input c)
           (output c ++ [mkTensor name (or_minus_one <$> sh) dtype]) (step c).

(** [getattr(config, "add_" + exposed_type)] *)
Definition config_add (ty : exposed_type) (name : string) (sh : shape)
    (dtype : string) (c : Config) : Config :=
  match ty with
  | Input => config_add_input name sh dtype c
  | Output => config_add_output name sh dtype c
  end.

(** ** Models and exposed tensors (model.py) *)

(** The dataclass fields that take part in [Model.__eq__], for models of
    one repository. *)
Record Model : Type := mkModel {
  name : string;
  platform : Platform_kind
}.

#[global] Instance Model_eq_dec : EqDecision Model.
Proof. solve_decision. Defined.

Record ExposedTensor : Type := mkExposed {
  model : Model;
  tname : string;
  tshape : shape
}.

#[global] Instance ExposedTensor_eq_dec : EqDecision ExposedTensor.
Proof. solve_decision. Defined.

(** Modelled from the spec: [config.add_step(model, version)] appends a
    new step referencing the model, with an optional pinned version and
    no routing yet. *)
Definition config_add_step (m : Model) (version : option Z) (c : Config)
    : Config :=
  mkConfig (input c) (output c)
           (step c ++ [mkStep (name m) version ∅ ∅]).

(** [Model.inputs] / [Model.outputs]: a dict from tensor name to the
    tensor, built by assignment in the order of the configuration, so that
    a later entry of the same name replaces an earlier one in place. *)
Definition dims_to_shape (d : list Z) : shape :=
  (fun x => if decide (x = -1) then None else Some x) <$> d.

Fixpoint dict_set {V} (k : string) (v : V) (d : list (string * V))
    : list (string * V) :=
  match d with
  | [] => [(k, v)]
  | (k', v') :: d' =>
      if decide (k' = k) then (k, v) :: d' else (k', v') :: dict_set k v d'
  end.

Fixpoint dict_get {V} (k : string) (d : list (string * V)) : option V :=
  match d with
  | [] => None
  | (k', v) :: d' => if decide (k' = k) then Some v else dict_get k d'
  end.

Definition dict_keys {V} (d : list (string * V)) : list string := d.*1.

Definition exposed_tensors (self : Model) (l : list ModelInput)
    : list (string * ExposedTensor) :=
  fold_left
    (fun acc t =>
       dict_set (tensor_name t)
                (mkExposed self (tensor_name t) (dims_to_shape (dims t))) acc)
    l [].

Definition inputs (self : Model) (c : Config) : list (string * ExposedTensor) :=
  exposed_tensors self (input c).

Definition outputs (self : Model) (c : Config) : list (string * ExposedTensor) :=
  exposed_tensors self (output c).

(** ** Ensembles (model.py, class EnsembleModel) *)

(** Modelled from the spec: [ModelRepository] is not part of the sources at
    hand.  A repository owns its models keyed by name; the ensemble only
    reads them. *)
Record EnsembleModel : Type := mkEnsemble {
  self_model : Model;
  repository_models : list Model
}.

(** Modelled from the spec: [repository.models[n]] is the model named [n];
    [None] stands for the [KeyError] of a missing name. *)
Definition repository_get (repo : list Model) (n : string) : option Model :=
  List.find (fun m => bool_decide (name m = n)) repo.

(** The attributes of a model object that hold a configuration.
    [Model.__post_init__] binds [config]; the dataclass fields are [name],
    [repository] and [platform]; no class of the module defines
    [__getattr__].  Reading any other attribute raises [AttributeError]. *)
Definition getattr_config (a : string) : M Config Config :=
  if bool_decide (a = "config") then get else raise (AttributeError a).

Section Ensemble.
Variable self : EnsembleModel.

(** [[self.repository.models[step.model_name] for step in steps]] *)
Fixpoint resolve_steps (steps : list Step) : error + list Model :=
  match steps with
  | [] => inr []
  | s :: rest =>
      match repository_get (repository_models self) (model_name s) with
      | None => inl (KeyError (model_name s))
      | Some m =>
          match resolve_steps rest with
          | inl e => inl e
          | inr ms => inr (m :: ms)
          end
      end
  end.

(** The property [models]: the step list is reached through
    [self._config]. *)
Definition models : M Config (list Model) :=
  cfg <- getattr_config "_config" ;;
  match resolve_steps (step cfg) with
  | inl e => raise e
  | inr ms => ret ms
  end.

(** [if tensor.model not in self.models: self.config.add_step(...)] *)
Definition ensure_step (m : Model) (version : option Z) : M Config unit :=
  ms <- models ;;
  if bool_decide (m ∈ ms) then ret tt
  else modify (config_add_step m version).

Definition set_step_map (ty : exposed_type) (k v : string) (s : Step) : Step :=
  match ty with
  | Input =>
      mkStep (model_name s) (model_version s)
             (<[k := v]> (input_map s)) (output_map s)
  | Output =>
      mkStep (model_name s) (model_version s)
             (input_map s) (<[k := v]> (output_map s))
  end.


Definition _update_step_map (tensor : ExposedTensor) (key : string)
    (ty : exposed_type) : M Config unit :=
  modify (fun c =>
    mkConfig (input c) (output c)
      ((fun s => if decide (model_name s = name (model tensor))
                 then set_step_map ty (tname tensor) key s else s)
         <$> step c)).

Definition add_input (inp : ExposedTensor) (version : option Z)
    (key : option string) : M Config ExposedTensor :=
  ensure_step (model inp) version ;;;
  let key := or_name key (tname inp) in
  c <- get ;;
  (if bool_decide (key ∈ dict_keys (inputs (self_model self) c))
   then raise DuplicateKeyError
   else modify (config_add_input key (tshape inp) "float32")) ;;;
  _update_step_map inp key Input ;;;
  c <- get ;;
  match dict_get key (inputs (self_model self) c) with
  | Some t => ret t
  | None => raise (KeyError key)
  end.

Definition add_output (out : ExposedTensor) (version : option Z)
    (key : option string) : M Config ExposedTensor :=
  ensure_step (model out) version ;;;
  let key := or_name key (tname out) in
  c <- get ;;
  (if bool_decide (key ∈ dict_keys (inputs (self_model self) c))
   then raise DuplicateKeyError
   else modify (config_add_output key (tshape out) "float32")) ;;;
  _update_step_map out key Output ;;;
  c <- get ;;
  match dict_get key (outputs (self_model self) c) with
  | Some t => ret t
  | None => raise (KeyError key)
  end.

(** [for step in steps: if step.model_name == n: break], then [step] is
    read: the first step of that name, else the last step of the loop;
    with no step at all the variable was never bound. *)
Definition find_step (n : string) : M Config Step :=
  fun c =>
    match List.find (fun s => bool_decide (model_name s = n)) (step c) with
    | Some s => Ok s c
    | None =>
        match last (step c) with
        | Some s => Ok s c
        | None => Raise UnboundLocalError c
        end
    end.

(** The body of [pipe]; the value returned is the local [key] as it
    stands when the function ends. *)
Definition pipe_key (outbound inbound : ExposedTensor) (key : option string)
    : M Config string :=
  if bool_decide (tshape outbound = tshape inbound) then
    ensure_step (model inbound) None ;;;
    ensure_step (model outbound) None ;;;
    s <- find_step (name (model outbound)) ;;
    let existing_key := map_get (output_map s) (tname outbound) in
    key <- (if decide (existing_key = "") then
              let key := or_name key (tname outbound) in
              _update_step_map outbound key Output ;;; ret key
            else
              match key with
              | Some k =>
                  if decide (existing_key = k) then ret existing_key
                  else raise KeyConflictError
              | None => ret existing_key
              end) ;;
    s <- find_step (name (model inbound)) ;;
    let existing_key := map_get (input_map s) (tname inbound) in
    if decide (existing_key = "") then
      _update_step_map inbound key Input ;;; ret key
    else if decide (existing_key = key) then ret key
    else raise KeyConflictError
  else raise ShapeMismatchError.

Definition pipe (outbound inbound : ExposedTensor) (key : option string)
    : M Config unit :=
  pipe_key outbound inbound key ;;; ret tt.

End Ensemble.

(** ** Python strings and paths *)

(** [str(n)] for an [int] whose decimal form stays below the digit limit
    of the interpreter (4300 digits by default from CPython 3.11 on). *)
Definition str (n : Z) : string :=
  DecimalString.NilZero.string_of_int (Z.to_int n).

(** White space as [str.strip] and [int] see it, within ASCII. *)
Definition is_space (c : ascii) : bool :=
  let n := nat_of_ascii c in
  ((9 <=? n) && (n <=? 13) || (28 <=? n) && (n <=? 32))%nat.

Definition digit_of (c : ascii) : option Z :=
  let n := nat_of_ascii c in
  if ((48 <=? n) && (n <=? 57))%nat then Some (Z.of_nat n - 48) else None.

Inductive digit_state : Type := AtStart | AfterDigit | AfterUnderscore.

Fixpoint int_digits (l : list ascii) (st : digit_state) (acc : Z) : option Z :=
  match l with
  | [] => match st with AfterDigit => Some acc | _ => None end
  | c :: l' =>
      match digit_of c with
      | Some d => int_digits l' AfterDigit (10 * acc + d)
      | None =>
          if Ascii.eqb c "_"
          then match st with
               | AfterDigit => int_digits l' AfterUnderscore acc
               | _ => None
               end
          else None
      end
  end.

Fixpoint lstrip (l : list ascii) : list ascii :=
  match l with
  | c :: l' => if is_space c then lstrip l' else l
  | [] => []
  end.

Definition strip (l : list ascii) : list ascii :=
  rev (lstrip (rev (lstrip l))).

(** [int(s)] for a [str] of ASCII characters, below the digit limit of
    the interpreter: surrounding white space is dropped, a sign may lead,
    and single underscores may separate digits.  [None] stands for
    [ValueError].  Digits and white space outside ASCII, which Python
    also reads, are not covered. *)
Definition int (s : string) : option Z :=
  match strip (list_ascii_of_string s) with
  | c :: l =>
      if Ascii.eqb c "-" then Z.opp <$> int_digits l AtStart 0
      else if Ascii.eqb c "+" then int_digits l AtStart 0
      else int_digits (c :: l) AtStart 0
  | [] => None
  end.

Definition endswith (s suffix : string) : bool :=
  let rev_of x := string_of_list_ascii (rev (list_ascii_of_string x)) in
  String.prefix (rev_of suffix) (rev_of s).

(** [os.path.join(a, *p)] (posixpath). *)
Definition path_join2 (path b : string) : string :=
  if String.prefix "/" b then b
  else if bool_decide (path = "") || endswith path "/" then path ++ b
  else path ++ "/" ++ b.

Definition os_path_join (a : string) (p : list string) : string :=
  fold_left path_join2 p a.

(** [s.replace(old, new)] for a non-empty [old]: occurrences are replaced
    from the left without overlap; [skip] counts the characters of a match
    still to be dropped. *)
Fixpoint replace_from (old new s : string) (skip : nat) : string :=
  match s with
  | EmptyString => EmptyString
  | String c s' =>
      match skip with
      | S k => replace_from old new s' k
      | O =>
          if String.prefix old s
          then new ++ replace_from old new s' (String.length old - 1)
          else String c (replace_from old new s' 0)
      end
  end.

Definition str_replace (old new s : string) : string :=
  replace_from old new s 0.

(** Loops over a list whose body may raise. *)
Fixpoint for_each {S A} (l : list A) (body : A -> M S unit) : M S unit :=
  match l with
  | [] => ret tt
  | x :: l' => body x ;;; for_each l' body
  end.

(** ** The file tree behind [os], [shutil] and [open]

    A tree is a finite map from resolved paths (their components) to
    directories and files.  Paths are resolved by splitting at ["/"]; an
    absolute path keeps ["/"] as its first component; [.], [..] and links
    are not interpreted. *)

Inductive node : Type := Dir | File (content : string).

(** The modes a file is read in: ["r"], text, and ["rb"], binary. *)
Inductive open_mode : Type := mode_r | mode_rb.

(** What a text-mode read makes of the content of a file: the line ends
    ["\r\n"] and ["\r"] both come back as ["\n"]. *)
Fixpoint universal_newlines (s : string) : string :=
  match s with
  | EmptyString => EmptyString
  | String c s' =>
      if Ascii.eqb c "013" then
        match s' with
        | String c' s'' =>
            if Ascii.eqb c' "010"
            then String "010" (universal_newlines s'')
            else String "010" (universal_newlines s')
        | EmptyString => String "010" EmptyString
        end
      else String c (universal_newlines s')
  end.

(** [s.isascii()] *)
Definition isascii (s : string) : bool :=
  forallb (fun c => (nat_of_ascii c <? 128)%nat) (list_ascii_of_string s).

#[global] Instance node_eq_dec : EqDecision node.
Proof. solve_decision. Defined.

Module os.

Fixpoint split_slash (s acc : string) : list string :=
  match s with
  | EmptyString => [acc]
  | String c s' =>
      if Ascii.eqb c "/" then acc :: split_slash s' ""
      else split_slash s' (acc ++ String c "")
  end.

Definition resolve (p : string) : list string :=
  (if String.prefix "/" p then ["/"] else [])
    ++ List.filter (fun x => negb (bool_decide (x = ""))) (split_slash p "").

Definition node_at (t : gmap (list string) node) (rp : list string)
    : option node :=
  match rp with
  | [] => None
  | ["/"] => Some Dir
  | _ => t !! rp
  end.

Definition path_exists (t : gmap (list string) node) (p : string) : bool :=
  bool_decide (is_Some (node_at t (resolve p))).

Definition path_isdir (t : gmap (list string) node) (p : string) : bool :=
  bool_decide (node_at t (resolve p) = Some Dir).

Definition path_isfile (t : gmap (list string) node) (p : string) : bool :=
  match node_at t (resolve p) with Some (File _) => true | _ => false end.

Fixpoint prefixes {A} (l : list A) : list (list A) :=
  match l with
  | [] => []
  | x :: l' => [x] :: (cons x <$> prefixes l')
  end.

(** [os.makedirs(p)]: the leaf must not exist and no ancestor may be a
    file; every missing ancestor is created. *)
Definition makedirs (p : string) : M (gmap (list string) node) unit :=
  fun t =>
    let rp := resolve p in
    if bool_decide (rp = []) || path_exists t p
       || existsb (fun q => match node_at t q with
                            | Some (File _) => true
                            | _ => false
                            end) (prefixes rp)
    then Raise (OSError p) t
    else Ok tt (fold_left (fun t' q => match node_at t' q with
                                       | None => <[q := Dir]> t'
                                       | Some _ => t'
                                       end) (prefixes rp) t).

Fixpoint child_name (parent k : list string) : option string :=
  match parent, k with
  | [], [n] => Some n
  | x :: parent', y :: k' =>
      if decide (x = y) then child_name parent' k' else None
  | _, _ => None
  end.

(** [os.listdir(p)]; [None] lists the working directory. *)
Definition listdir (p : option string)
    : M (gmap (list string) node) (list string) :=
  fun t =>
    match p with
    | None =>
        Ok (omap (fun kv => match kv.1 with
                            | [n] => if decide (n = "/") then None else Some n
                            | _ => None
                            end) (map_to_list t)) t
    | Some p =>
        if path_isdir t p
        then Ok (omap (fun kv => child_name (resolve p) kv.1) (map_to_list t)) t
        else Raise (OSError p) t
    end.

Fixpoint is_prefix (l k : list string) : bool :=
  match l, k with
  | [], _ => true
  | x :: l', y :: k' => bool_decide (x = y) && is_prefix l' k'
  | _ :: _, [] => false
  end.

(** [shutil.rmtree(p)] on a directory. *)
Definition rmtree (p : string) : M (gmap (list string) node) unit :=
  modify (fun t => filter (fun kv => is_prefix (resolve p) kv.1 = false) t).

(** [os.remove(p)] on a file. *)
Definition remove (p : string) : M (gmap (list string) node) unit :=
  modify (fun t => delete (resolve p) t).

Definition parent_ok (t : gmap (list string) node) (rp : list string) : bool :=
  match removelast rp with
  | [] => true
  | q => bool_decide (node_at t q = Some Dir)
  end.

(** [with open(p, mode) as f: f.read()]: in text mode the lines of the
    file are read with universal newlines. *)
Definition read (p : string) (mode : open_mode)
    : M (gmap (list string) node) string :=
  fun t =>
    match node_at t (resolve p) with
    | Some (File c) =>
        Ok (match mode with
            | mode_r => universal_newlines c
            | mode_rb => c
            end) t
    | _ => Raise (OSError p) t
    end.

(** [with open(p, "w") as f: f.write(obj)] *)
Definition write (obj p : string) : M (gmap (list string) node) unit :=
  fun t =>
    let rp := resolve p in
    if bool_decide (rp = []) || path_isdir t p || negb (parent_ok t rp)
    then Raise (OSError p) t
    else Ok tt (<[rp := File obj]> t).

End os.

(** ** File systems (io/file_system.py, io/local.py)

    [FileSystem] is the abstract base class the models work against: [F]
    is the type of the file-system object and [W] the state of the storage
    it talks to. *)

Class FileSystem (F W : Type) : Type := {
  fs_join : F -> list string -> string;
  fs_soft_makedirs : F -> string -> M W bool;
  fs_isdir : F -> string -> M W bool;
  fs_list : F -> option string -> M W (list string);
  fs_glob : F -> string -> M W (list string);
  fs_remove : F -> string -> M W unit;
  fs_read : F -> string -> M W string;
  fs_write : F -> string -> string -> M W unit
}.

(** CPython's default recursion limit. *)
Definition recursion_limit : nat := 1000.

Module LocalFileSystem.
Section Local.
(** [glob.glob] of the standard library, given the tree it runs on. *)
Variable glob_glob : gmap (list string) node -> string -> list string.

Record t : Type := mk { root : string }.

(** [os.path.join] of the parts; every call site passes at least one. *)
Definition join (self : t) (args : list string) : string :=
  match args with
  | [] => ""
  | a :: p => os_path_join a p
  end.

Definition soft_makedirs (self : t) (path : string)
    : M (gmap (list string) node) bool :=
  let path := join self [root self; path] in
  tree <- get ;;
  if negb (os.path_exists tree path)
  then os.makedirs path ;;; ret true
  else ret false.

Definition isdir (self : t) (path : string)
    : M (gmap (list string) node) bool :=
  let path := join self [root self; path] in
  tree <- get ;;
  ret (os.path_isdir tree path).

Definition list (self : t) (path : option string)
    : M (gmap (Datatypes.list string) node) (Datatypes.list string) :=
  os.listdir ((fun p => join self [root self; p]) <$> path).

Definition glob (self : t) (path : string)
    : M (gmap (Datatypes.list string) node) (Datatypes.list string) :=
  tree <- get ;;
  let files := glob_glob tree (join self [root self; path]) in
  let prefix :=
    if endswith (root self) "/" then root self else root self ++ "/" in
  ret ((fun f => str_replace prefix "" f) <$> files).

Fixpoint remove_depth (depth : nat) (self : t) (path : string)
    : M (gmap (Datatypes.list string) node) unit :=
  match depth with
  | O => raise RecursionError
  | S depth' =>
      let path := join self [root self; path] in
      tree <- get ;;
      if os.path_isdir tree path then os.rmtree path
      else if os.path_isfile tree path then os.remove path
      else
        paths <- glob self path ;;
        if bool_decide (length paths = 0%nat)
        then raise (NoFilesFoundError path)
        else for_each paths (remove_depth depth' self)
  end.

Definition remove : t -> string -> M (gmap (Datatypes.list string) node) unit :=
  remove_depth recursion_limit.

Definition delete (self : t) : M (gmap (Datatypes.list string) node) unit :=
  remove self "".

(** [read(path, mode)] for the modes ["r"] and ["rb"]. *)
Definition read_mode (self : t) (path : string) (mode : open_mode)
    : M (gmap (Datatypes.list string) node) string :=
  os.read (join self [root self; path]) mode.

(** [read(path)]: the mode defaults to ["r"]. *)
Definition read (self : t) (path : string)
    : M (gmap (Datatypes.list string) node) string :=
  read_mode self path mode_r.

(** [obj] is a [str], held as the bytes that reach the file; the [bytes]
    case writes the same way and other types, which raise [TypeError],
    are excluded by the type. *)
Definition write (self : t) (obj path : string)
    : M (gmap (Datatypes.list string) node) unit :=
  os.write obj (join self [root self; path]).

(** [__post_init__] *)
Definition post_init (self : t) : M (gmap (Datatypes.list string) node) bool :=
  soft_makedirs self "".

#[export] Instance file_system : FileSystem t (gmap (Datatypes.list string) node) := {|
  fs_join := join;
  fs_soft_makedirs := soft_makedirs;
  fs_isdir := isdir;
  fs_list := list;
  fs_glob := glob;
  fs_remove := remove;
  fs_read := read;
  fs_write := write
|}.
End Local.
End LocalFileSystem.

(** ** Exposed-tensor validation (platforms/platform.py) *)

(** The [provided] argument when it is not [None]: a sequence of shapes or
    a dict from tensor names to shapes (in insertion order). *)
Inductive shapes : Type :=
  | ShapeList (l : list shape)
  | ShapeDict (d : list (string * shape)).

Definition exposed_type_str (ty : exposed_type) : string :=
  match ty with Input => "input" | Output => "output" end.

(** [{f"{exposed_type}_{i}": shape for i, shape in enumerate(provided)}] *)
Definition enumerate_names (ty : exposed_type) (l : list shape)
    : list (string * shape) :=
  fold_left
    (fun acc ish =>
       dict_set (exposed_type_str ty ++ "_" ++ str (Z.of_nat ish.1)) ish.2 acc)
    (imap (fun i sh => (i, sh)) l) [].

(** [{x.name: shape for x, shape in zip(exposed, provided)}] *)
Definition zip_names (ex : list ModelInput) (l : list shape)
    : list (string * shape) :=
  fold_left (fun acc xs => dict_set (tensor_name xs.1) xs.2 acc) (zip ex l) [].

(** [any([i is None for i in shape[1:]])] *)
Definition variable_beyond_first (sh : shape) : bool :=
  existsb (fun i => bool_decide (i = None)) (tail sh).

Definition names_match (provided : list (string * shape))
    (ex : list ModelInput) : bool :=
  bool_decide (length provided = length ex)
  && bool_decide (list_to_set (dict_keys provided)
                  =@{gset string} list_to_set (tensor_name <$> ex)).

Definition _check_exposed_tensors (ty : exposed_type)
    (provided : option shapes) : M Config unit :=
  c <- get ;;
  let exposed := exposed ty c in
  match provided with
  | None =>
      if bool_decide (length exposed = 0%nat)
      then raise ConfigurationError
      else ret tt
  | Some provided =>
      if bool_decide (length exposed = 0%nat) then
        let provided :=
          match provided with
          | ShapeDict d => d
          | ShapeList l => enumerate_names ty l
          end in
        for_each provided (fun ns =>
          if variable_beyond_first ns.2 then raise InvalidShapeError
          else modify (config_add ty ns.1 ns.2 "float32"))
      else
        let provided :=
          match provided with
          | ShapeDict d => d
          | ShapeList l => zip_names exposed l
          end in
        if negb (names_match provided exposed) then raise ShapeMismatchError
        else
          for_each exposed (fun ex =>
            let config_shape := dims ex in
            match dict_get (tensor_name ex) provided with
            | None => raise (KeyError (tensor_name ex))
            | Some sh =>
                let provided_shape := or_minus_one <$> sh in
                if bool_decide (config_shape = provided_shape) then ret tt
                else raise ShapeMismatchError
            end)
  end.

(** ** Exporters and the world they act on *)

(** The file name of each platform's artifact, from [Convention] in
    platforms/platform.py. *)
Definition conventions (p : Platform_kind) : string :=
  match p with
  | ONNX => "model.onnx"
  | SAVEDMODEL => "model.savedmodel"
  | TENSORRT => "model.plan"
  | ENSEMBLE => "model.empty"
  end.

(** What a method of a model can touch: the storage behind [self.fs] and
    [self.config]. *)
Record World (W : Type) : Type := mkWorld {
  storage : W;
  config : Config
}.

Arguments mkWorld {W} storage config.
Arguments storage {W} w.
Arguments config {W} w.

Definition on_storage {W A} (c : M W A) : M (World W) A :=
  fun w => match c (storage w) with
           | Ok a s => Ok a (mkWorld s (config w))
           | Raise e s => Raise e (mkWorld s (config w))
           end.

Definition on_config {W A} (c : M Config A) : M (World W) A :=
  fun w => match c (config w) with
           | Ok a k => Ok a (mkWorld (storage w) k)
           | Raise e k => Raise e (mkWorld (storage w) k)
           end.

(** Modelled from the spec: the [Exporter] classes are not part of the
    sources at hand.  An exporter belongs to one platform, tells whether it
    handles a model function ([None] when the test itself raises
    [ImportError]), infers output shapes and writes an artifact; the last
    two act on the storage and on the configuration and may raise. *)
Record Exporter (ModelFn W : Type) : Type := mkExporter {
  exporter_platform : Platform_kind;
  handles : ModelFn -> option bool;
  _get_output_shapes : ModelFn -> option (list string) -> M (World W) shapes;
  _export : ModelFn -> string -> Z -> M (World W) string
}.

Arguments exporter_platform {ModelFn W} e.
Arguments handles {ModelFn W} e fn.
Arguments _get_output_shapes {ModelFn W} e fn names.
Arguments _export {ModelFn W} e fn path verbose.

(** ** Repository entries (model.py, class Model) *)

Section ModelMethods.
Context {F W ModelFn : Type} `{FileSystem F W}.

(** [self.fs], the [Exporter] subclasses in enumeration order, and
    [self.config.write]. *)
Variable fs : F.
Variable exporters : list (Exporter ModelFn W).
Variable config_write : M (World W) unit.

Fixpoint versions_loop (entries : list string) (versions : list Z)
    : M W (list Z) :=
  match entries with
  | [] => ret versions
  | f :: rest =>
      d <- fs_isdir fs f ;;
      if d then
        match int f with
        | None => versions_loop rest versions
        | Some version => versions_loop rest (versions ++ [version])
        end
      else versions_loop rest versions
  end.

Definition versions (self : Model) : M W (list Z) :=
  entries <- fs_list fs (Some (name self)) ;;
  versions_loop entries [].

Fixpoint _find_exporter_loop (self : Model) (model_fn : ModelFn)
    (l : list (Exporter ModelFn W)) : error + Exporter ModelFn W :=
  match l with
  | [] => inl NoExporterError
  | exporter :: rest =>
      if bool_decide (exporter_platform exporter = platform self) then
        match handles exporter model_fn with
        | Some true => inr exporter
        | Some false => _find_exporter_loop self model_fn rest
        | None => _find_exporter_loop self model_fn rest
        end
      else _find_exporter_loop self model_fn rest
  end.

Definition _find_exporter (self : Model) (model_fn : ModelFn)
    : M (World W) (Exporter ModelFn W) :=
  fun w => match _find_exporter_loop self model_fn exporters with
           | inl e => Raise e w
           | inr x => Ok x w
           end.

(** [max(l)] *)
Definition max_of (l : list Z) : error + Z :=
  match l with
  | [] => inl EmptyMaxError
  | x :: l' => inr (fold_left Z.max l' x)
  end.

(** The target version: [version], or [max(self.versions) + 1]. *)
Definition target_version (self : Model) (version : option Z)
    : M (World W) Z :=
  match version with
  | Some v => ret v
  | None =>
      vs <- on_storage (versions self) ;;
      match max_of vs with
      | inl e => raise e
      | inr m => ret (m + 1)
      end
  end.

(** The body of the [try] block of [export_version]. *)
Definition export_body (self : Model) (exporter : Exporter ModelFn W)
    (model_fn : ModelFn) (output_dir : string)
    (input_shapes : option (list (string * shape)))
    (output_names : option (list string)) (verbose : Z)
    : M (World W) unit :=
  on_config (_check_exposed_tensors Input (ShapeDict <$> input_shapes)) ;;;
  output_shapes <- _get_output_shapes exporter model_fn output_names ;;
  on_config (_check_exposed_tensors Output (Some output_shapes)) ;;;
  let export_path := fs_join fs [output_dir; conventions (platform self)] in
  _export exporter model_fn export_path verbose ;;;
  config_write.

Definition export_version (self : Model) (model_fn : ModelFn)
    (version : option Z) (input_shapes : option (list (string * shape)))
    (output_names : option (list string)) (verbose : Z)
    : M (World W) unit :=
  exporter <- _find_exporter self model_fn ;;
  version <- target_version self version ;;
  let output_dir := fs_join fs [name self; str version] in
  do_remove <- on_storage (fs_soft_makedirs fs output_dir) ;;
  try_except
    (export_body self exporter model_fn output_dir input_shapes
                 output_names verbose)
    (fun e =>
       (if do_remove : bool then on_storage (fs_remove fs output_dir)
        else ret tt) ;;;
       raise e).

(** [Model.__post_init__]: the model directory is ensured to exist. *)
Definition model_post_init (self : Model) : M W bool :=
  fs_soft_makedirs fs (name self).

End ModelMethods.

(** ** Observations on ensembles used in the statements *)




(** ** Observations on validation used in the statements *)







(** The two tests of the code on the dict it holds: set equality of the
    names with matching count, and the comparison made for one declared
    tensor. *)
Definition names_agree (provided : list (string * shape))
    (declared : list ModelInput) : Prop :=
  length provided = length declared
  /\ forall n, n ∈ dict_keys provided <-> n ∈ tensor_name <$> declared.

Definition shape_checks (provided : list (string * shape)) (ex : ModelInput)
    : bool :=
  match dict_get (tensor_name ex) provided with
  | Some sh => bool_decide (dims ex = or_minus_one <$> sh)
  | None => false
  end.

(** ** A small repository used in the examples *)

Module Demo.

Definition A : Model := mkModel "A" ONNX.
Definition B : Model := mkModel "B" ONNX.
Definition C : Model := mkModel "C" ONNX.
Definition Ens : Model := mkModel "E" ENSEMBLE.

Definition E : EnsembleModel := mkEnsemble Ens [A; B; C; Ens].

Definition A_y : ExposedTensor := mkExposed A "y" [None; Some 10].
Definition B_x : ExposedTensor := mkExposed B "x" [None; Some 4].
Definition B_z : ExposedTensor := mkExposed B "z" [None; Some 10].

(** A configuration that declares input ["x"] of shape [(None, 4)]. *)
Definition declared_x : Config :=
  config_add_input "x" [None; Some 4] "float32" empty_config.

(** A local file system rooted at ["repo"], a model ["m"] in it, and
    storage states: the model directory alone; the model directory with
    version directory ["1"]; and a state where ["repo/3"] is a directory
    while ["repo/m/3"] is a plain file. *)
Definition repo_fs : LocalFileSystem.t := LocalFileSystem.mk "repo".

Definition m : Model := mkModel "m" ONNX.

Definition tree_m : gmap (list string) node :=
  final_state (LocalFileSystem.soft_makedirs repo_fs "m" ∅).

Definition tree_m_1 : gmap (list string) node :=
  final_state (LocalFileSystem.soft_makedirs repo_fs "m/1" ∅).

Definition tree_stray : gmap (list string) node :=
  final_state
    (LocalFileSystem.write repo_fs "x" "m/3"
       (final_state (LocalFileSystem.soft_makedirs repo_fs "3" tree_m))).

(** A pattern matcher that finds nothing. *)
Definition no_glob (t : gmap (list string) node) (pattern : string)
    : list string := [].

(** An exporter for ONNX whose artifact step raises, and one that writes
    the artifact. *)
Definition failing_exporter : Exporter unit (gmap (list string) node) :=
  mkExporter unit (gmap (list string) node) ONNX
    (fun _ => Some true)
    (fun _ _ => ret (ShapeList [[None; Some 10]]))
    (fun _ _ _ => raise (ExternalError "export")).

Definition writing_exporter : Exporter unit (gmap (list string) node) :=
  mkExporter unit (gmap (list string) node) ONNX
    (fun _ => Some true)
    (fun _ _ => ret (ShapeList [[None; Some 10]]))
    (fun _ path _ =>
       on_storage (LocalFileSystem.write (LocalFileSystem.mk "") "onnx" path)
       ;;; ret path).

Definition config_write : M (World (gmap (list string) node)) unit :=
  on_storage (LocalFileSystem.write repo_fs "config" "m/config.pbtxt").

(** An export of version 1 with input ["x"] of shape [(None, 4)]: the
    world before the call, after the version directory has been made, and
    where the body of the export fails. *)
Definition input_shapes : option (list (string * shape)) :=
  Some [("x", [None; Some 4])].

Definition fresh_world : World (gmap (list string) node) :=
  mkWorld tree_m empty_config.

Definition world_after_mkdir : World (gmap (list string) node) :=
  mkWorld tree_m_1 empty_config.


End Demo.

From Stdlib Require DecimalZ DecimalPos.

(** ** Further observations used in the statements *)

(** The other kind of exposed tensor. *)
Definition other_type (ty : exposed_type) : exposed_type :=
  match ty with Input => Output | Output => Input end.


(** ** Further examples *)

Module More.

(** An exporter whose artifact step removes the version directory and
    then raises, and where the body of an export with it fails. *)
Definition vanishing_exporter : Exporter unit (gmap (list string) node) :=
  mkExporter unit (gmap (list string) node) ONNX
    (fun _ => Some true)
    (fun _ _ => ret (ShapeList [[None; Some 10]]))
    (fun _ _ _ =>
       on_storage (LocalFileSystem.remove Demo.no_glob Demo.repo_fs "m/1")
       ;;; raise (ExternalError "export")).

Definition world_vanished : World (gmap (list string) node) :=
  final_state
    (export_body (H := LocalFileSystem.file_system Demo.no_glob) Demo.repo_fs
       Demo.config_write Demo.m vanishing_exporter tt "m/1"
       Demo.input_shapes None 0 Demo.world_after_mkdir).

(** The tree [Demo.tree_m] with a file written into the model directory. *)
Definition tree_with_file : gmap (list string) node :=
  final_state (LocalFileSystem.write Demo.repo_fs "data" "m/f.txt" Demo.tree_m).

End More.

(** The tensor the declaring branch of [_check_exposed_tensors] records
    for a name and a shape, and the configuration after a run of such
    declarations. *)
Definition declared_tensor (ns : string * shape) : ModelInput :=
  mkTensor ns.1 (or_minus_one <$> ns.2) "float32".

Definition declare_all (ty : exposed_type) (d : list (string * shape))
    (c : Config) : Config :=
  fold_left (fun c ns => config_add ty ns.1 ns.2 "float32" c) d c.

(** The generic name of the [i]-th tensor of a kind. *)
Definition generic_name (ty : exposed_type) (i : nat) : string :=
  exposed_type_str ty ++ "_" ++ str (Z.of_nat i).

(** Whether a text holds a carriage return. *)
Definition contains_cr (s : string) : bool :=
  existsb (fun c => Ascii.eqb c "013") (list_ascii_of_string s).


(** An exporter fits a model and a model function when it targets the
    model's platform and its test of the function answers yes (an
    [ImportError] during the test counts as no). *)
Definition fits {ModelFn W} (self : Model) (model_fn : ModelFn)
    (x : Exporter ModelFn W) : Prop :=
  exporter_platform x = platform self /\ handles x model_fn = Some true.

(** What [os.makedirs] does for one ancestor: a missing one is made a
    directory, an existing one is left. *)
Definition make_missing (t : gmap (list string) node) (q : list string)
    : gmap (list string) node :=
  match os.node_at t q with
  | None => <[q := Dir]> t
  | Some _ => t
  end.

(** * Properties *)

(** ** Outcomes of sequenced computations *)

Lemma bind_Ok_inv {S A B} (m : M S A) (k : A -> M S B) s b s' :
  bind m k s = Ok b s' -> exists a s1, m s = Ok a s1 /\ k a s1 = Ok b s'.
Proof.
  unfold bind. destruct (m s) as [a s1|e s1]; [|discriminate]. eauto.
Qed.

Lemma bind_Ok {S A B} (m : M S A) (k : A -> M S B) s a s1 :
  m s = Ok a s1 -> bind m k s = k a s1.
Proof. unfold bind. now intros ->. Qed.

Lemma bind_Raise {S A B} (m : M S A) (k : A -> M S B) s e s1 :
  m s = Raise e s1 -> bind m k s = Raise e s1.
Proof. unfold bind. now intros ->. Qed.

(** ** Ensembles: the routing maps *)





(** ** Ensembles: [self.models] and what is built on it *)

Section EnsembleFacts.
Variable E : EnsembleModel.

Lemma getattr_config_missing (a : string) (c : Config) :
  a <> "config" -> getattr_config a c = Raise (AttributeError a) c.
Proof.
  intros Ha. unfold getattr_config. now rewrite bool_decide_eq_false_2.
Qed.

Lemma models_raises (c : Config) :
  models E c = Raise (AttributeError "_config") c.
Proof.
  unfold models. apply bind_Raise. now apply getattr_config_missing.
Qed.

Lemma ensure_step_raises (m : Model) (version : option Z) (c : Config) :
  ensure_step E m version c = Raise (AttributeError "_config") c.
Proof. unfold ensure_step. apply bind_Raise, models_raises. Qed.

Lemma pipe_key_outcome (a b : ExposedTensor) (key : option string)
    (c : Config) :
  pipe_key E a b key c
  = Raise (if decide (tshape a = tshape b) then AttributeError "_config"
           else ShapeMismatchError) c.
Proof.
  unfold pipe_key. destruct (decide (tshape a = tshape b)) as [Hs|Hs].
  - rewrite bool_decide_eq_true_2 by assumption.
    apply bind_Raise, ensure_step_raises.
  - now rewrite bool_decide_eq_false_2.
Qed.

End EnsembleFacts.

(** ** Ensembles: [pipe], [add_input] and [add_output] *)

(** C4: piping tensors of different shapes fails with the shape mismatch
    error and leaves the ensemble's configuration as it was: no step is
    added and no step map is changed. *)
Theorem pipe_shape_mismatch (E : EnsembleModel) (a b : ExposedTensor)
    (key : option string) (c : Config) :
  tshape a <> tshape b ->
  pipe E a b key c = Raise ShapeMismatchError c.
Proof.
  intros Hne. unfold pipe, pipe_key, bind.
  now rewrite bool_decide_eq_false_2.
Qed.

Lemma pipe_shape_mismatch_witness :
  tshape Demo.A_y <> tshape Demo.B_x
  /\ pipe Demo.E Demo.A_y Demo.B_x None empty_config
     = Raise ShapeMismatchError empty_config.
Proof.
  split; [discriminate|].
  apply (pipe_shape_mismatch Demo.E Demo.A_y Demo.B_x None
           empty_config).
  discriminate.
Defined.


(** C5, on the code: [add_input] begins with [self.models], which reads
    the attribute [_config] that no model carries.  Every call raises
    [AttributeError] and leaves the configuration as it was, whatever the
    key; the duplicate key error is never reached. *)
Theorem add_input_attribute_error (E : EnsembleModel) (T : ExposedTensor)
    (version : option Z) (key : option string) (c : Config) :
  add_input E T version key c = Raise (AttributeError "_config") c.
Proof.
  unfold add_input. apply bind_Raise, ensure_step_raises.
Qed.

(** C1, on the code: [add_output] begins with [self.models] as well.
    Every call raises [AttributeError] and leaves the configuration as it
    was: no key is accepted, no output is declared, and the duplicate key
    error is never raised. *)
Theorem add_output_attribute_error (E : EnsembleModel) (T : ExposedTensor)
    (version : option Z) (key : option string) (c : Config) :
  add_output E T version key c = Raise (AttributeError "_config") c
  /\ output (final_state (add_output E T version key c)) = output c.
Proof.
  assert (H : add_output E T version key c
              = Raise (AttributeError "_config") c).
  { unfold add_output. apply bind_Raise, ensure_step_raises. }
  rewrite H. now split.
Qed.

(** C2, on the code: piping output ["y"] of a model to input ["z"] of
    another, both of one shape and with no key supplied, raises
    [AttributeError] at [self.models]; the configuration is as it was, so
    no step is added and nothing is routed. *)
Theorem pipe_end_to_end_fails (E : EnsembleModel) (A B : Model) (sh : shape)
    (c : Config) :
  pipe E (mkExposed A "y" sh) (mkExposed B "z" sh) None c
  = Raise (AttributeError "_config") c.
Proof.
  unfold pipe. apply bind_Raise. rewrite pipe_key_outcome. cbn.
  now rewrite decide_True.
Qed.

(** C3, on the code: no call of [pipe] returns, and none raises the key
    conflict error.  A first call [pipe(a, b, key=K1)] does not succeed,
    and a call [pipe(a, d, key=K2)] fails with the shape mismatch error or
    with [AttributeError], in whatever state it is made. *)
Theorem pipe_never_key_conflict (E : EnsembleModel) (a b d : ExposedTensor)
    (K1 K2 : string) (c : Config) :
  (forall c1, pipe E a b (Some K1) c <> Ok tt c1)
  /\ (forall c1 c2, pipe E a d (Some K2) c1 <> Raise KeyConflictError c2).
Proof.
  split.
  - intros c1. unfold pipe, bind. now rewrite pipe_key_outcome.
  - intros c1 c2. unfold pipe, bind. rewrite pipe_key_outcome.
    destruct (decide (tshape a = tshape d)); discriminate.
Qed.

(** C9, on the code: for tensors of equal shape the first call of [pipe]
    raises [AttributeError] and produces no routing key, and the second
    call, made in the state the first one left, raises it again. *)
Theorem pipe_twice_fails (E : EnsembleModel) (a b : ExposedTensor)
    (key : option string) (c : Config) :
  tshape a = tshape b ->
  pipe_key E a b key c = Raise (AttributeError "_config") c
  /\ pipe E a b key (final_state (pipe E a b key c))
     = Raise (AttributeError "_config") c.
Proof.
  intros Hs.
  assert (H : forall c', pipe_key E a b key c'
                         = Raise (AttributeError "_config") c').
  { intros c'. rewrite pipe_key_outcome. now rewrite decide_True. }
  split; [apply H|].
  unfold pipe, bind. now rewrite !H.
Qed.

Lemma pipe_twice_fails_witness :
  tshape Demo.A_y = tshape Demo.B_z
  /\ pipe_key Demo.E Demo.A_y Demo.B_z None empty_config
     = Raise (AttributeError "_config") empty_config
  /\ pipe Demo.E Demo.A_y Demo.B_z None
       (final_state (pipe Demo.E Demo.A_y Demo.B_z None empty_config))
     = Raise (AttributeError "_config") empty_config.
Proof.
  split; [reflexivity|].
  apply (pipe_twice_fails Demo.E Demo.A_y Demo.B_z None empty_config).
  reflexivity.
Defined.

(** ** Validation of exposed tensors *)

Section Validation.









Lemma names_match_agree d declared :
  names_match d declared = true <-> names_agree d declared.
Proof.
  unfold names_match, names_agree.
  rewrite andb_true_iff, !bool_decide_eq_true.
  split; intros [Hl Hs]; (split; [assumption|]).
  - intros n. rewrite <- !(elem_of_list_to_set (C := gset string)).
    now rewrite Hs.
  - apply set_eq. intros n. rewrite !elem_of_list_to_set. apply Hs.
Qed.

Lemma for_each_shape_checks (d : list (string * shape)) l (c : Config) :
  (forall ex, ex ∈ l -> is_Some (dict_get (tensor_name ex) d)) ->
  for_each l (fun ex =>
      match dict_get (tensor_name ex) d with
      | None => raise (KeyError (tensor_name ex))
      | Some sh =>
          if bool_decide (dims ex = or_minus_one <$> (sh : shape)) then ret tt
          else raise ShapeMismatchError
      end) c
  = if forallb (shape_checks d) l then Ok tt c
    else Raise ShapeMismatchError c.
Proof.
  induction l as [|ex l IH]; intros Hk; [reflexivity|].
  cbn [for_each forallb]. unfold bind at 1. unfold shape_checks at 1.
  destruct (Hk ex) as [sh Hsh]; [left|]. rewrite Hsh.
  destruct (bool_decide (dims ex = or_minus_one <$> sh)); [|reflexivity].
  cbn. apply IH. intros ex' Hex'. apply Hk. now right.
Qed.


End Validation.



(** ** Version export on a local file system *)

Section LocalExport.
Variable glob_glob : gmap (list string) node -> string -> list string.
Variable ModelFn : Type.
Variable exporters : list (Exporter ModelFn (gmap (list string) node)).
Variable config_write : M (World (gmap (list string) node)) unit.
Variable lfs : LocalFileSystem.t.

Local Abbreviation LFS := (LocalFileSystem.file_system glob_glob).

Lemma remove_depth_S depth path :
  LocalFileSystem.remove_depth glob_glob (S depth) lfs path
  = (let path := LocalFileSystem.join lfs [LocalFileSystem.root lfs; path] in
     tree <- get ;;
     if os.path_isdir tree path then os.rmtree path
     else if os.path_isfile tree path then os.remove path
     else
       paths <- LocalFileSystem.glob glob_glob lfs path ;;
       if bool_decide (length paths = 0%nat)
       then raise (NoFilesFoundError path)
       else for_each paths
              (LocalFileSystem.remove_depth glob_glob depth lfs))%py.
Proof. reflexivity. Qed.

Lemma local_remove_directory path t :
  os.path_isdir t (LocalFileSystem.join lfs [LocalFileSystem.root lfs; path])
  = true ->
  LocalFileSystem.remove glob_glob lfs path t
  = Ok tt (filter (fun kv =>
                     os.is_prefix
                       (os.resolve (LocalFileSystem.join lfs
                                      [LocalFileSystem.root lfs; path]))
                       kv.1 = false) t).
Proof.
  intros Hd. unfold LocalFileSystem.remove.
  change recursion_limit with (S 999). rewrite remove_depth_S.
  cbn zeta. unfold bind, get. now rewrite Hd.
Qed.


Lemma lookup_rmtree (path : string) (t : gmap (list string) node)
    (q : list string) :
  filter (fun kv => os.is_prefix (os.resolve path) kv.1 = false) t !! q
  = if os.is_prefix (os.resolve path) q then None else t !! q.
Proof.
  destruct (os.is_prefix (os.resolve path) q) eqn:Hp.
  - apply map_lookup_filter_None. right. intros x _. cbn. congruence.
  - destruct (t !! q) as [x|] eqn:Hq.
    + now apply map_lookup_filter_Some.
    + apply map_lookup_filter_None. now left.
Qed.


End LocalExport.


(** The two cases of a failing export, run: into a fresh version
    directory, which is gone afterwards, and into one that existed, which
    stays. *)
Example export_version_failure_runs :
  storage (final_state
             (export_version (H := LocalFileSystem.file_system Demo.no_glob)
                Demo.repo_fs [Demo.failing_exporter]
                Demo.config_write Demo.m tt (Some 1)
                Demo.input_shapes None 0 Demo.fresh_world))
  = Demo.tree_m
  /\ storage (final_state
                (export_version
                   (H := LocalFileSystem.file_system Demo.no_glob)
                   Demo.repo_fs [Demo.failing_exporter]
                   Demo.config_write Demo.m tt (Some 1)
                   Demo.input_shapes None 0 Demo.world_after_mkdir))
     = Demo.tree_m_1.
Proof. split; reflexivity. Qed.


(** ** Version discovery and the default version *)

Lemma target_version_supplied {F W} `{FileSystem F W} (fs : F) (self : Model)
    (v : Z) (w : World W) :
  target_version fs self (Some v) w = Ok v w.
Proof. reflexivity. Qed.

Lemma max_of_spec (x : Z) (l : list Z) (m : Z) :
  max_of (x :: l) = inr m -> m ∈ x :: l /\ forall y, y ∈ x :: l -> y <= m.
Proof.
  cbn. intros [= <-]. revert x.
  induction l as [|z l IH]; intros x; cbn.
  - split; [left|]. intros y Hy. apply list_elem_of_singleton in Hy. lia.
  - destruct (IH (Z.max x z)) as [Hin Hle]. split.
    + apply elem_of_cons in Hin as [Hin|Hin]; [|right; now right].
      rewrite Hin. destruct (Z.max_spec x z) as [[_ ->]|[_ ->]];
        [right; left|left].
    + intros y Hy. apply elem_of_cons in Hy as [->|Hy].
      * specialize (Hle (Z.max x z)). pose proof (Hle ltac:(left)). lia.
      * apply elem_of_cons in Hy as [->|Hy].
        -- specialize (Hle (Z.max x z)). pose proof (Hle ltac:(left)). lia.
        -- apply Hle. now right.
Qed.

Lemma target_version_default {F W} `{FileSystem F W} (fs : F) (self : Model)
    (w : World W) (x : Z) (l : list Z) (s : W) :
  versions fs self (storage w) = Ok (x :: l) s ->
  exists m, target_version fs self None w = Ok (m + 1) (mkWorld s (config w))
            /\ m ∈ x :: l /\ forall y, y ∈ x :: l -> y <= m.
Proof.
  intros Hv. unfold target_version, bind, on_storage. rewrite Hv.
  destruct (max_of (x :: l)) as [e|m] eqn:Hm; [discriminate|].
  exists m. split; [reflexivity|]. now apply max_of_spec.
Qed.

(** C7, on the code: with no version present, the default version is
    [max] of an empty list, which raises; no version directory is made.
    Here the model directory exists and holds nothing. *)
Theorem export_version_without_versions :
  versions (H := LocalFileSystem.file_system Demo.no_glob)
    Demo.repo_fs Demo.m Demo.tree_m
  = Ok [] Demo.tree_m
  /\ export_version (H := LocalFileSystem.file_system Demo.no_glob)
       Demo.repo_fs [Demo.writing_exporter] Demo.config_write
       Demo.m tt None Demo.input_shapes None 0 Demo.fresh_world
     = Raise EmptyMaxError Demo.fresh_world.
Proof. split; reflexivity. Qed.


(** C10, on the code: [versions] hands the bare entry name to [isdir],
    which resolves it against the root of the file system and not against
    the model's directory.  A version directory [repo/m/1] is listed but
    not reported; and with [repo/3] a directory, the plain file [repo/m/3]
    is reported as version 3. *)
Theorem versions_tests_entry_against_root :
  (os.path_isdir Demo.tree_m_1 "repo/m/1" = true
   /\ LocalFileSystem.list Demo.repo_fs (Some "m") Demo.tree_m_1
      = Ok ["1"] Demo.tree_m_1
   /\ int "1" = Some 1
   /\ versions (H := LocalFileSystem.file_system Demo.no_glob)
        Demo.repo_fs Demo.m Demo.tree_m_1
      = Ok [] Demo.tree_m_1)
  /\ (os.path_isdir Demo.tree_stray "repo/m/3" = false
      /\ os.path_isfile Demo.tree_stray "repo/m/3" = true
      /\ versions (H := LocalFileSystem.file_system Demo.no_glob)
           Demo.repo_fs Demo.m Demo.tree_stray
         = Ok [3] Demo.tree_stray).
Proof. repeat split; reflexivity. Qed.


(** * Further properties *)

(** ** Ensembles: the routing maps *)



(** ** Tactics for lists of distinct names *)

Ltac not_among :=
  let H := fresh in
  intros H;
  repeat (apply elem_of_cons in H as [H|H]; [discriminate|]);
  inversion H.

Ltac distinct_strings :=
  repeat (apply NoDup_cons; split; [not_among|]); apply NoDup_nil_2.

(** ** Validation of exposed tensors: declaring and re-validating *)

Section ValidationMore.

Lemma exposed_declare_all ty d c :
  exposed ty (declare_all ty d c)
  = (exposed ty c ++ (declared_tensor <$> d))%list
  /\ exposed (other_type ty) (declare_all ty d c) = exposed (other_type ty) c
  /\ step (declare_all ty d c) = step c.
Proof.
  revert c. induction d as [|ns d IH]; intros c; cbn.
  - now rewrite app_nil_r.
  - destruct (IH (config_add ty ns.1 ns.2 "float32" c)) as (H1 & H2 & H3).
    fold (declare_all ty d (config_add ty ns.1 ns.2 "float32" c)).
    rewrite H1, H2, H3. destruct ty; cbn; rewrite <- ?app_assoc; now repeat split.
Qed.

Lemma declare_loop ty (pre rest : list (string * shape)) c :
  Forall (fun ns => variable_beyond_first ns.2 = false) pre ->
  for_each (pre ++ rest) (fun ns =>
      if variable_beyond_first ns.2 then raise InvalidShapeError
      else modify (config_add ty ns.1 ns.2 "float32")) c
  = for_each rest (fun ns =>
      if variable_beyond_first ns.2 then raise InvalidShapeError
      else modify (config_add ty ns.1 ns.2 "float32"))
      (declare_all ty pre c).
Proof.
  intros Hpre. revert c. induction Hpre as [|ns pre Hns Hpre IH]; intros c.
  - reflexivity.
  - cbn [app for_each]. unfold bind at 1. rewrite Hns. cbn. apply IH.
Qed.

Lemma check_exposed_tensors_declares_aux ty (d : list (string * shape)) c :
  exposed ty c = [] ->
  Forall (fun ns => variable_beyond_first ns.2 = false) d ->
  _check_exposed_tensors ty (Some (ShapeDict d)) c
  = Ok tt (declare_all ty d c)
  /\ exposed ty (declare_all ty d c) = declared_tensor <$> d.
Proof.
  intros He Hd. split.
  - unfold _check_exposed_tensors, bind, get. rewrite He. cbn [length].
    rewrite bool_decide_eq_true_2 by reflexivity.
    rewrite <- (app_nil_r d) at 1. rewrite (declare_loop ty d [] c Hd).
    reflexivity.
  - destruct (exposed_declare_all ty d c) as (H1 & _).
    now rewrite H1, He.
Qed.

(** Declaring from a dict: with no tensor of the kind declared and every
    provided shape variable in its first axis at most, validation
    succeeds and declares the provided tensors, in the order of the dict,
    each with the variable axis stored as -1; the tensors of the other
    kind and the steps are untouched. *)
Theorem check_exposed_tensors_declares (ty : exposed_type)
    (d : list (string * shape)) (c : Config) :
  exposed ty c = [] ->
  Forall (fun ns => variable_beyond_first ns.2 = false) d ->
  _check_exposed_tensors ty (Some (ShapeDict d)) c
  = Ok tt (declare_all ty d c)
  /\ exposed ty (declare_all ty d c) = declared_tensor <$> d
  /\ exposed (other_type ty) (declare_all ty d c) = exposed (other_type ty) c
  /\ step (declare_all ty d c) = step c.
Proof.
  intros He Hd.
  destruct (check_exposed_tensors_declares_aux ty d c He Hd) as (H1 & H2).
  destruct (exposed_declare_all ty d c) as (_ & H3 & H4).
  now repeat split.
Qed.

(** Declaring is not atomic: when a provided shape has a variable axis
    beyond the first, validation raises the invalid shape error with the
    tensors that came before it in the dict already declared. *)
Theorem check_exposed_tensors_partial (ty : exposed_type)
    (pre post : list (string * shape)) (n : string) (sh : shape)
    (c : Config) :
  exposed ty c = [] ->
  Forall (fun ns => variable_beyond_first ns.2 = false) pre ->
  variable_beyond_first sh = true ->
  _check_exposed_tensors ty (Some (ShapeDict (pre ++ (n, sh) :: post))) c
  = Raise InvalidShapeError (declare_all ty pre c)
  /\ exposed ty (declare_all ty pre c) = declared_tensor <$> pre.
Proof.
  intros He Hpre Hsh. split.
  - unfold _check_exposed_tensors, bind, get. rewrite He. cbn [length].
    rewrite bool_decide_eq_true_2 by reflexivity.
    rewrite (declare_loop ty pre _ c Hpre). cbn [for_each]. unfold bind.
    cbn [snd]. now rewrite Hsh.
  - destruct (exposed_declare_all ty pre c) as (H1 & _).
    now rewrite H1, He.
Qed.

Lemma dict_get_NoDup {V} (d : list (string * V)) k v :
  NoDup d.*1 -> (k, v) ∈ d -> dict_get k d = Some v.
Proof.
  induction d as [|[k' v'] d IH]; cbn; intros Hnd Hin; [inversion Hin|].
  apply NoDup_cons in Hnd as [Hk Hnd].
  apply elem_of_cons in Hin as [[= -> ->]|Hin].
  - now rewrite decide_True.
  - rewrite decide_False; [now apply IH|].
    intros ->. apply Hk. apply list_elem_of_fmap. now exists (k, v).
Qed.

(** Round trip: shapes that have been declared from a dict validate
    against the configuration they produced, and that second validation
    changes nothing. *)
Theorem check_exposed_tensors_round_trip (ty : exposed_type)
    (d : list (string * shape)) (c : Config) :
  exposed ty c = [] ->
  NoDup d.*1 ->
  Forall (fun ns => variable_beyond_first ns.2 = false) d ->
  exists c1,
    _check_exposed_tensors ty (Some (ShapeDict d)) c = Ok tt c1
    /\ _check_exposed_tensors ty (Some (ShapeDict d)) c1 = Ok tt c1.
Proof.
  intros He Hnd Hd.
  destruct (check_exposed_tensors_declares_aux ty d c He Hd) as (H1 & H2).
  exists (declare_all ty d c). split; [assumption|].
  destruct d as [|ns0 d0] eqn:Hdd; [exact H1|]. rewrite <- Hdd in *.
  unfold _check_exposed_tensors, bind, get. rewrite H2.
  rewrite bool_decide_eq_false_2 by (rewrite Hdd; discriminate).
  assert (Hn : names_match d (declared_tensor <$> d) = true).
  { apply names_match_agree. split; [now rewrite length_fmap|].
    intros n. unfold dict_keys. rewrite <- list_fmap_compose.
    reflexivity. }
  rewrite Hn. cbn [negb].
  rewrite for_each_shape_checks.
  - replace (forallb (shape_checks d) (declared_tensor <$> d)) with true;
      [reflexivity|].
    symmetry. apply forallb_forall. intros ex Hex.
    apply list_elem_of_In, list_elem_of_fmap in Hex as ([n sh] & -> & Hin).
    unfold shape_checks. cbn.
    rewrite (dict_get_NoDup d n sh Hnd Hin).
    now apply bool_decide_eq_true.
  - intros ex Hex. apply list_elem_of_fmap in Hex as ([n sh] & -> & Hin).
    cbn. rewrite (dict_get_NoDup d n sh Hnd Hin). eauto.
Qed.

Lemma zip_app_longer {A B} (ex : list A) (l extra : list B) :
  (length ex <= length l)%nat -> zip ex (l ++ extra) = zip ex l.
Proof.
  revert l. induction ex as [|x ex IH]; intros [|y l] Hl; cbn in *;
    try reflexivity; [lia|].
  f_equal. apply IH. lia.
Qed.

(** A list of shapes longer than the declared tensors is cut to their
    number: the shapes beyond the declared tensors are never looked at. *)
Theorem check_exposed_tensors_list_cut (ty : exposed_type)
    (l extra : list shape) (c : Config) :
  exposed ty c <> [] ->
  (length (exposed ty c) <= length l)%nat ->
  _check_exposed_tensors ty (Some (ShapeList (l ++ extra))) c
  = _check_exposed_tensors ty (Some (ShapeList l)) c.
Proof.
  intros Hne Hl. unfold _check_exposed_tensors, bind, get.
  rewrite bool_decide_eq_false_2
    by (destruct (exposed ty c); [congruence|discriminate]).
  unfold zip_names. now rewrite zip_app_longer.
Qed.

Lemma dict_set_length {V} k (v : V) d :
  (length (dict_set k v d) <= S (length d))%nat.
Proof.
  induction d as [|[k' v'] d IH]; cbn; [lia|].
  destruct (decide (k' = k)); cbn; lia.
Qed.

Lemma zip_names_length ex (l : list shape) :
  (length (zip_names ex l) <= length l)%nat.
Proof.
  unfold zip_names.
  assert (H : forall (xs : list (ModelInput * shape)) acc,
            (length (fold_left
                       (fun acc xs => dict_set (tensor_name xs.1) xs.2 acc)
                       xs acc)
             <= length acc + length xs)%nat).
  { induction xs as [|x xs IH]; intros acc; cbn; [lia|].
    specialize (IH (dict_set (tensor_name x.1) x.2 acc)).
    pose proof (dict_set_length (tensor_name x.1) x.2 acc). lia. }
  specialize (H (zip ex l) []). cbn in H.
  assert (length (zip ex l) <= length l)%nat; [|lia].
  rewrite length_zip_with. lia.
Qed.

(** A list of shapes shorter than the declared tensors fails with the
    shape mismatch error, whatever the shapes; the configuration is
    unchanged. *)
Theorem check_exposed_tensors_list_short (ty : exposed_type)
    (l : list shape) (c : Config) :
  (length l < length (exposed ty c))%nat ->
  _check_exposed_tensors ty (Some (ShapeList l)) c
  = Raise ShapeMismatchError c.
Proof.
  intros Hl. unfold _check_exposed_tensors, bind, get.
  rewrite bool_decide_eq_false_2 by lia.
  unfold names_match.
  rewrite (bool_decide_eq_false_2 (length _ = length _)); [reflexivity|].
  pose proof (zip_names_length (exposed ty c) l). lia.
Qed.

End ValidationMore.

(** ** Version numbers as directory names *)

Section VersionNames.

Lemma str_inj (a b : Z) : str a = str b -> a = b.
Proof.
  unfold str. intros H.
  assert (Hnil : forall z, Z.to_int z <> Decimal.Pos Decimal.Nil
                           /\ Z.to_int z <> Decimal.Neg Decimal.Nil).
  { intros [|p|p]; cbn; split; try discriminate;
      intros [= Hp]; now apply (DecimalPos.Unsigned.to_uint_nonnil p). }
  destruct (Hnil a) as [Ha1 Ha2]. destruct (Hnil b) as [Hb1 Hb2].
  pose proof (NilZero.isi _ Ha1 Ha2) as Ia.
  pose proof (NilZero.isi _ Hb1 Hb2) as Ib.
  rewrite H, Ib in Ia. injection Ia as Ia.
  rewrite <- (DecimalZ.of_to a), <- (DecimalZ.of_to b). now rewrite Ia.
Qed.

End VersionNames.

(** ** Validation of exposed tensors: lists of shapes *)

Section ValidationLists.

Lemma dict_set_fresh {V} k (v : V) d :
  k ∉ d.*1 -> dict_set k v d = (d ++ [(k, v)])%list.
Proof.
  induction d as [|[k' v'] d IH]; cbn; intros Hk; [reflexivity|].
  rewrite decide_False by (intros ->; apply Hk; left).
  f_equal. apply IH. intros Hin. apply Hk. now right.
Qed.

Lemma fold_dict_set_fresh {V} (xs acc : list (string * V)) :
  NoDup (acc.*1 ++ xs.*1) ->
  fold_left (fun acc ks => dict_set ks.1 ks.2 acc) xs acc = (acc ++ xs)%list.
Proof.
  revert acc. induction xs as [|[k v] xs IH]; intros acc Hnd; cbn.
  - now rewrite app_nil_r.
  - cbn in Hnd. apply NoDup_app in Hnd as Hnd'.
    destruct Hnd' as (_ & Hdis & _).
    rewrite dict_set_fresh by (intros Hin; apply (Hdis k Hin); left).
    rewrite IH; [now rewrite <- app_assoc|].
    rewrite fmap_app. cbn. now rewrite <- app_assoc.
Qed.

Lemma fold_left_fmap_fun {A B C} (f : C -> B -> C) (g : A -> B) l a :
  fold_left f (g <$> l) a = fold_left (fun a x => f a (g x)) l a.
Proof. revert a. induction l as [|x l IH]; intros a; cbn; [reflexivity|apply IH]. Qed.

Lemma zip_names_pairs ex (l : list shape) :
  NoDup (tensor_name <$> ex) -> length l = length ex ->
  zip_names ex l = (fun xs => (tensor_name xs.1, xs.2)) <$> zip ex l.
Proof.
  intros Hnd Hl. unfold zip_names.
  rewrite <- (fold_left_fmap_fun
                (fun acc ks => dict_set ks.1 ks.2 acc)
                (fun xs : ModelInput * shape => (tensor_name xs.1, xs.2))).
  rewrite fold_dict_set_fresh; [reflexivity|]. cbn.
  rewrite <- list_fmap_compose.
  replace ((fst ∘ (fun xs : ModelInput * shape => (tensor_name xs.1, xs.2)))
             <$> zip ex l)
    with (tensor_name <$> (zip ex l).*1)
    by (rewrite <- list_fmap_compose; reflexivity).
  rewrite fst_zip by lia. exact Hnd.
Qed.

Lemma append_inj_l (p a b : string) : p ++ a = p ++ b -> a = b.
Proof. induction p as [|c p IH]; cbn; [trivial|]. intros [= H]. auto. Qed.

Lemma generic_name_inj ty i j :
  generic_name ty i = generic_name ty j -> i = j.
Proof.
  unfold generic_name. intros H.
  apply append_inj_l, append_inj_l, str_inj in H. lia.
Qed.

Lemma enumerate_names_pairs ty (l : list shape) :
  enumerate_names ty l = imap (fun i sh => (generic_name ty i, sh)) l.
Proof.
  unfold enumerate_names.
  change (fun acc (ish : nat * shape) =>
            dict_set (exposed_type_str ty ++ "_" ++ str (Z.of_nat ish.1))
                     ish.2 acc)
    with (fun acc (ish : nat * shape) =>
            (fun acc ks => dict_set ks.1 ks.2 acc) acc
              ((fun ish : nat * shape => (generic_name ty ish.1, ish.2)) ish)).
  rewrite <- (fold_left_fmap_fun
                (fun acc (ks : string * shape) => dict_set ks.1 ks.2 acc)
                (fun ish : nat * shape => (generic_name ty ish.1, ish.2))).
  rewrite fmap_imap.
  change (imap (fun n => (fun ish : nat * shape => (generic_name ty ish.1, ish.2))
                           ∘ (fun sh => (n, sh))) l)
    with (imap (fun i sh => (generic_name ty i, sh)) l).
  rewrite fold_dict_set_fresh; [reflexivity|]. cbn.
  rewrite fmap_imap.
  change (imap (fun n => fst ∘ (fun sh : shape => (generic_name ty n, sh))) l)
    with (imap (fun n (_ : shape) => generic_name ty n) l).
  rewrite imap_seq_0. apply NoDup_fmap_2_strong; [|apply NoDup_seq].
  intros i j _ _. apply generic_name_inj.
Qed.

(** Declaring from a list: with no tensor of the kind declared, a list of
    shapes variable in the first axis at most is declared under the names
    [kind_0], [kind_1], ... in the order of the list; the tensors of the
    other kind are untouched. *)
Theorem check_exposed_tensors_declares_list (ty : exposed_type)
    (l : list shape) (c : Config) :
  exposed ty c = [] ->
  Forall (fun sh => variable_beyond_first sh = false) l ->
  exists c',
    _check_exposed_tensors ty (Some (ShapeList l)) c = Ok tt c'
    /\ exposed ty c'
       = imap (fun i sh => declared_tensor (generic_name ty i, sh)) l
    /\ exposed (other_type ty) c' = exposed (other_type ty) c.
Proof.
  intros He Hl.
  set (d := imap (fun i sh => (generic_name ty i, sh)) l).
  assert (Hd : Forall (fun ns => variable_beyond_first ns.2 = false) d).
  { apply Forall_forall. intros [n sh] Hin.
    apply list_elem_of_lookup in Hin as (i & Hi). unfold d in Hi.
    rewrite list_lookup_imap in Hi.
    destruct (l !! i) as [sh'|] eqn:Hli; [|discriminate].
    injection Hi as _ <-. cbn.
    apply list_elem_of_lookup_2 in Hli.
    now apply (proj1 (Forall_forall _ _) Hl). }
  exists (declare_all ty d c).
  destruct (exposed_declare_all ty d c) as (H1 & H2 & _).
  split; [|split; [|exact H2]].
  - unfold _check_exposed_tensors, bind, get. rewrite He. cbn [length].
    rewrite bool_decide_eq_true_2 by reflexivity.
    rewrite enumerate_names_pairs. fold d.
    rewrite <- (app_nil_r d) at 1. now rewrite (declare_loop ty d [] c Hd).
  - rewrite H1, He. cbn. unfold d. now rewrite fmap_imap.
Qed.

(** Positional validation: a list with one shape per declared tensor, the
    declared names being distinct, validates exactly when each declared
    tensor, in order, records the shape at its position, [None] and [0]
    both read as -1; otherwise the shape mismatch error is raised.  The
    configuration is unchanged either way. *)
Theorem check_exposed_tensors_positional (ty : exposed_type)
    (l : list shape) (c : Config) :
  exposed ty c <> [] ->
  NoDup (tensor_name <$> exposed ty c) ->
  length l = length (exposed ty c) ->
  (Forall2 (fun ex sh => dims ex = or_minus_one <$> sh) (exposed ty c) l ->
   _check_exposed_tensors ty (Some (ShapeList l)) c = Ok tt c)
  /\ (~ Forall2 (fun ex sh => dims ex = or_minus_one <$> sh)
          (exposed ty c) l ->
      _check_exposed_tensors ty (Some (ShapeList l)) c
      = Raise ShapeMismatchError c).
Proof.
  intros Hne Hnd Hl.
  set (ex := exposed ty c) in *.
  set (d := (fun xs : ModelInput * shape => (tensor_name xs.1, xs.2))
              <$> zip ex l).
  assert (Hkeys : d.*1 = tensor_name <$> ex).
  { unfold d. rewrite <- list_fmap_compose.
    replace ((fst ∘ (fun xs : ModelInput * shape => (tensor_name xs.1, xs.2)))
               <$> zip ex l)
      with (tensor_name <$> (zip ex l).*1)
      by (rewrite <- list_fmap_compose; reflexivity).
    now rewrite fst_zip by lia. }
  assert (Hget : forall i x sh, ex !! i = Some x -> l !! i = Some sh ->
                                dict_get (tensor_name x) d = Some sh).
  { intros i x sh Hx Hsh. apply dict_get_NoDup; [now rewrite Hkeys|].
    unfold d. apply list_elem_of_fmap. exists (x, sh). split; [reflexivity|].
    apply (list_elem_of_lookup_2 _ i). now apply lookup_zip_Some. }
  assert (Hrun : _check_exposed_tensors ty (Some (ShapeList l)) c
                 = if forallb (shape_checks d) ex then Ok tt c
                   else Raise ShapeMismatchError c).
  { unfold _check_exposed_tensors, bind, get. fold ex.
    rewrite bool_decide_eq_false_2
      by (destruct ex; [congruence|discriminate]).
    rewrite (zip_names_pairs ex l Hnd Hl). fold d.
    assert (Hn : names_match d ex = true).
    { apply names_match_agree. split.
      - unfold d. rewrite length_fmap, length_zip_with. lia.
      - intros n. unfold dict_keys. now rewrite Hkeys. }
    rewrite Hn. cbn [negb]. apply for_each_shape_checks.
    intros x Hx. apply list_elem_of_lookup in Hx as (i & Hi).
    destruct (l !! i) as [sh|] eqn:Hli.
    - rewrite (Hget i x sh Hi Hli). eauto.
    - apply lookup_ge_None in Hli. apply lookup_lt_Some in Hi.
      exfalso. apply (Nat.lt_irrefl i).
        eapply Nat.lt_le_trans; [exact Hi|]. rewrite <- Hl. exact Hli. }
  assert (Hiff : forallb (shape_checks d) ex = true
                 <-> Forall2 (fun ex sh => dims ex = or_minus_one <$> sh) ex l).
  { rewrite forallb_forall, Forall2_same_length_lookup. split.
    - intros H. split; [symmetry; exact Hl|]. intros i x sh Hx Hsh.
      assert (Hin : In x ex)
        by (apply list_elem_of_In; eapply list_elem_of_lookup_2; eauto).
      specialize (H x Hin). unfold shape_checks in H.
      rewrite (Hget i x sh Hx Hsh) in H. now apply bool_decide_eq_true in H.
    - intros [_ H] x Hin. apply list_elem_of_In in Hin.
      apply list_elem_of_lookup in Hin as (i & Hi).
      destruct (l !! i) as [sh|] eqn:Hli.
      + unfold shape_checks. rewrite (Hget i x sh Hi Hli).
        apply bool_decide_eq_true. eauto.
      + apply lookup_ge_None in Hli. apply lookup_lt_Some in Hi.
        exfalso. apply (Nat.lt_irrefl i).
        eapply Nat.lt_le_trans; [exact Hi|]. rewrite <- Hl. exact Hli. }
  rewrite Hrun. destruct (forallb (shape_checks d) ex).
  - split; [reflexivity|]. intros Hnot. exfalso. apply Hnot. now apply Hiff.
  - split; [|reflexivity]. intros H. apply Hiff in H. discriminate.
Qed.

End ValidationLists.

(** ** Validation: the properties above at work *)

Lemma check_exposed_tensors_declares_witness :
  exposed Input empty_config = []
  /\ _check_exposed_tensors Input
       (Some (ShapeDict [("x", [None; Some 4]); ("m", [Some 2; Some 3])]))
       empty_config
     = Ok tt (declare_all Input
                [("x", [None; Some 4]); ("m", [Some 2; Some 3])] empty_config)
  /\ exposed Input
       (declare_all Input
          [("x", [None; Some 4]); ("m", [Some 2; Some 3])] empty_config)
     = [mkTensor "x" [-1; 4] "float32"; mkTensor "m" [2; 3] "float32"]
  /\ exposed Output
       (declare_all Input
          [("x", [None; Some 4]); ("m", [Some 2; Some 3])] empty_config)
     = []
  /\ step (declare_all Input
             [("x", [None; Some 4]); ("m", [Some 2; Some 3])] empty_config)
     = [].
Proof.
  split; [reflexivity|].
  apply (check_exposed_tensors_declares Input
           [("x", [None; Some 4]); ("m", [Some 2; Some 3])] empty_config);
    [reflexivity|repeat constructor].
Defined.

Lemma check_exposed_tensors_partial_witness :
  exposed Input empty_config = []
  /\ variable_beyond_first [Some 2; None] = true
  /\ _check_exposed_tensors Input
       (Some (ShapeDict ([("x", [None; Some 4])]
                           ++ ("bad", [Some 2; None]) :: [("z", [Some 1])])))
       empty_config
     = Raise InvalidShapeError
         (declare_all Input [("x", [None; Some 4])] empty_config)
  /\ exposed Input (declare_all Input [("x", [None; Some 4])] empty_config)
     = [mkTensor "x" [-1; 4] "float32"].
Proof.
  split; [reflexivity|]. split; [reflexivity|].
  apply (check_exposed_tensors_partial Input [("x", [None; Some 4])]
           [("z", [Some 1])] "bad" [Some 2; None] empty_config);
    [reflexivity|repeat constructor|reflexivity].
Defined.

Lemma check_exposed_tensors_round_trip_witness :
  exposed Output empty_config = []
  /\ NoDup [("y", [None; Some 10]); ("aux", [None])].*1
  /\ exists c1,
       _check_exposed_tensors Output
         (Some (ShapeDict [("y", [None; Some 10]); ("aux", [None])]))
         empty_config = Ok tt c1
       /\ _check_exposed_tensors Output
            (Some (ShapeDict [("y", [None; Some 10]); ("aux", [None])])) c1
          = Ok tt c1.
Proof.
  assert (H : NoDup [("y", [None; Some 10]); ("aux", [None : option Z])].*1)
    by (cbn; distinct_strings).
  split; [reflexivity|]. split; [exact H|].
  apply (check_exposed_tensors_round_trip Output
           [("y", [None; Some 10]); ("aux", [None])] empty_config);
    [reflexivity|exact H|repeat constructor].
Defined.

Lemma check_exposed_tensors_list_cut_witness :
  exposed Input Demo.declared_x <> []
  /\ (length (exposed Input Demo.declared_x) <= length [[None; Some 4]])%nat
  /\ _check_exposed_tensors Input
       (Some (ShapeList ([[None; Some 4]] ++ [[Some 7]; [Some 8; None]])))
       Demo.declared_x
     = _check_exposed_tensors Input (Some (ShapeList [[None; Some 4]]))
         Demo.declared_x.
Proof.
  split; [discriminate|]. split; [cbn; lia|].
  apply (check_exposed_tensors_list_cut Input [[None; Some 4]]
           [[Some 7]; [Some 8; None]] Demo.declared_x);
    [discriminate|cbn; lia].
Defined.

Lemma check_exposed_tensors_list_short_witness :
  (length ([] : list shape) < length (exposed Input Demo.declared_x))%nat
  /\ _check_exposed_tensors Input (Some (ShapeList [])) Demo.declared_x
     = Raise ShapeMismatchError Demo.declared_x.
Proof.
  split; [cbn; lia|].
  apply (check_exposed_tensors_list_short Input [] Demo.declared_x).
  cbn; lia.
Defined.

Lemma check_exposed_tensors_declares_list_witness :
  exposed Output empty_config = []
  /\ exists c',
       _check_exposed_tensors Output
         (Some (ShapeList [[None; Some 10]; [Some 3]])) empty_config
       = Ok tt c'
       /\ exposed Output c'
          = [mkTensor "output_0" [-1; 10] "float32";
             mkTensor "output_1" [3] "float32"]
       /\ exposed Input c' = [].
Proof.
  split; [reflexivity|].
  apply (check_exposed_tensors_declares_list Output
           [[None; Some 10]; [Some 3]] empty_config);
    [reflexivity|repeat constructor].
Defined.

Lemma check_exposed_tensors_positional_witness :
  exposed Input Demo.declared_x <> []
  /\ NoDup (tensor_name <$> exposed Input Demo.declared_x)
  /\ length [[Some 0; Some 4]] = length (exposed Input Demo.declared_x)
  /\ (Forall2 (fun ex sh => dims ex = or_minus_one <$> sh)
        (exposed Input Demo.declared_x) [[Some 0; Some 4]] ->
      _check_exposed_tensors Input (Some (ShapeList [[Some 0; Some 4]]))
        Demo.declared_x
      = Ok tt Demo.declared_x)
  /\ (~ Forall2 (fun ex sh => dims ex = or_minus_one <$> sh)
          (exposed Input Demo.declared_x) [[Some 0; Some 4]] ->
      _check_exposed_tensors Input (Some (ShapeList [[Some 0; Some 4]]))
        Demo.declared_x
      = Raise ShapeMismatchError Demo.declared_x).
Proof.
  assert (H : NoDup (tensor_name <$> exposed Input Demo.declared_x))
    by (cbn; distinct_strings).
  split; [discriminate|]. split; [exact H|]. split; [reflexivity|].
  apply (check_exposed_tensors_positional Input [[Some 0; Some 4]]
           Demo.declared_x); [discriminate|exact H|reflexivity].
Defined.

(** ** Repository entries: exporters and the default version *)

Section ModelMore.
Context {F W ModelFn : Type} `{FileSystem F W}.
Variable fs : F.
Variable exporters : list (Exporter ModelFn W).
Variable config_write : M (World W) unit.

Lemma find_exporter_loop_spec (self : Model) (model_fn : ModelFn)
    (l : list (Exporter ModelFn W)) :
  match _find_exporter_loop self model_fn l with
  | inr x =>
      exists pre post,
        l = (pre ++ x :: post)%list /\ fits self model_fn x
        /\ Forall (fun y => ~ fits self model_fn y) pre
  | inl e => e = NoExporterError /\ Forall (fun y => ~ fits self model_fn y) l
  end.
Proof.
  induction l as [|y l IH]; cbn; [split; [reflexivity|constructor]|].
  assert (Hskip : ~ fits self model_fn y ->
            match _find_exporter_loop self model_fn l with
            | inr x =>
                exists pre post,
                  y :: l = (pre ++ x :: post)%list /\ fits self model_fn x
                  /\ Forall (fun y => ~ fits self model_fn y) pre
            | inl e =>
                e = NoExporterError
                /\ Forall (fun y => ~ fits self model_fn y) (y :: l)
            end).
  { intros Hy. destruct (_find_exporter_loop self model_fn l) as [e|x].
    - destruct IH as [-> Hl]. split; [reflexivity|now constructor].
    - destruct IH as (pre & post & -> & Hx & Hpre).
      exists (y :: pre), post. split; [reflexivity|].
      split; [assumption|now constructor]. }
  case_bool_decide as Hp.
  - destruct (handles y model_fn) as [[|]|] eqn:Hh.
    + exists [], l. split; [reflexivity|]. split; [now split|constructor].
    + apply Hskip. intros [_ Hf]. congruence.
    + apply Hskip. intros [_ Hf]. congruence.
  - apply Hskip. intros [Hf _]. congruence.
Qed.

(** [_find_exporter] returns the first exporter, in enumeration order,
    that targets the model's platform and handles the model function;
    exporters whose test raises [ImportError] are passed over; when none
    fits it fails.  Storage and configuration are not touched. *)
Theorem find_exporter_first (self : Model) (model_fn : ModelFn)
    (w : World W) :
  match _find_exporter exporters self model_fn w with
  | Ok x w' =>
      w' = w
      /\ exists pre post,
           exporters = (pre ++ x :: post)%list /\ fits self model_fn x
           /\ Forall (fun y => ~ fits self model_fn y) pre
  | Raise e w' =>
      w' = w /\ e = NoExporterError
      /\ Forall (fun y => ~ fits self model_fn y) exporters
  end.
Proof.
  unfold _find_exporter.
  pose proof (find_exporter_loop_spec self model_fn exporters) as Hs.
  destruct (_find_exporter_loop self model_fn exporters) as [e|x].
  - destruct Hs as [-> Hl]. now repeat split.
  - split; [reflexivity|exact Hs].
Qed.

(** When no exporter fits, [export_version] fails before anything else
    happens: no version is looked up, no directory is made, and the world
    is as it was. *)
Theorem export_version_no_exporter (self : Model) (model_fn : ModelFn)
    (version : option Z) (input_shapes : option (list (string * shape)))
    (output_names : option (list string)) (verbose : Z) (w : World W) :
  Forall (fun y => ~ fits self model_fn y) exporters ->
  export_version fs exporters config_write self model_fn version
    input_shapes output_names verbose w
  = Raise NoExporterError w.
Proof.
  intros Hnone. unfold export_version. apply bind_Raise.
  unfold _find_exporter.
  pose proof (find_exporter_loop_spec self model_fn exporters) as Hs.
  destruct (_find_exporter_loop self model_fn exporters) as [e|x].
  - now destruct Hs as [-> _].
  - exfalso. destruct Hs as (pre & post & -> & Hx & _).
    apply Forall_app in Hnone as [_ Hn].
    apply Forall_cons in Hn as [Hn _]. now apply Hn.
Qed.


End ModelMore.

(** ** The local file system *)

Section LocalMore.
Variable glob_glob : gmap (list string) node -> string -> list string.
Variable lfs : LocalFileSystem.t.

Local Abbreviation full path :=
  (LocalFileSystem.join lfs [LocalFileSystem.root lfs; path]).

Lemma node_at_lookup (t : gmap (list string) node) (q : list string) :
  q <> [] -> q <> ["/"] -> os.node_at t q = t !! q.
Proof.
  intros H1 H2. unfold os.node_at.
  repeat case_match; subst; try reflexivity; congruence.
Qed.

Lemma node_at_insert_ne (t : gmap (list string) node) q q' n :
  q <> q' -> os.node_at (<[q' := n]> t) q = os.node_at t q.
Proof.
  intros Hne. destruct (decide (q = [])) as [->|H1]; [reflexivity|].
  destruct (decide (q = ["/"])) as [->|H2]; [reflexivity|].
  rewrite !node_at_lookup by assumption. now apply lookup_insert_ne.
Qed.

Lemma node_at_none_lookup (t : gmap (list string) node) q :
  q <> [] -> os.node_at t q = None -> q <> ["/"] /\ t !! q = None.
Proof.
  intros H1 Hn. assert (H2 : q <> ["/"]) by (intros ->; discriminate).
  split; [assumption|]. now rewrite <- node_at_lookup.
Qed.

Lemma make_missing_keeps_lookup t q q0 n :
  q <> [] -> t !! q0 = Some n -> make_missing t q !! q0 = Some n.
Proof.
  intros Hq Hl. unfold make_missing.
  destruct (os.node_at t q) eqn:Hn; [assumption|].
  destruct (node_at_none_lookup t q Hq Hn) as [_ Hnone].
  rewrite lookup_insert_ne; [assumption|]. intros ->. congruence.
Qed.

Lemma make_missing_keeps_node t q q0 n :
  os.node_at t q0 = Some n -> os.node_at (make_missing t q) q0 = Some n.
Proof.
  intros Hl. unfold make_missing.
  destruct (os.node_at t q) eqn:Hn; [assumption|].
  rewrite node_at_insert_ne; [assumption|]. intros ->. congruence.
Qed.

Lemma make_missing_dir t q :
  q <> [] -> (forall c, os.node_at t q <> Some (File c)) ->
  os.node_at (make_missing t q) q = Some Dir.
Proof.
  intros Hq Hf. unfold make_missing.
  destruct (os.node_at t q) as [[|c]|] eqn:Hn;
    [assumption|now destruct (Hf c)|].
  destruct (node_at_none_lookup t q Hq Hn) as [H2 _].
  rewrite node_at_lookup by assumption. apply lookup_insert_eq.
Qed.

Lemma fold_make_missing_keeps_lookup qs t q0 n :
  Forall (fun q => q <> []) qs -> t !! q0 = Some n ->
  fold_left make_missing qs t !! q0 = Some n.
Proof.
  intros Hqs. revert t. induction Hqs as [|q qs Hq _ IH]; intros t Hl;
    [assumption|].
  cbn. apply IH. now apply make_missing_keeps_lookup.
Qed.

Lemma fold_make_missing_keeps_node qs t q0 n :
  os.node_at t q0 = Some n ->
  os.node_at (fold_left make_missing qs t) q0 = Some n.
Proof.
  revert t. induction qs as [|q qs IH]; intros t Hl; [assumption|].
  cbn. apply IH. now apply make_missing_keeps_node.
Qed.

Lemma fold_make_missing_dir qs t q :
  Forall (fun q => q <> []) qs -> q ∈ qs ->
  (forall c, os.node_at t q <> Some (File c)) ->
  os.node_at (fold_left make_missing qs t) q = Some Dir.
Proof.
  intros Hqs. revert t. induction Hqs as [|q1 qs Hq1 _ IH]; intros t Hin Hf;
    [inversion Hin|].
  cbn. destruct (decide (q = q1)) as [->|Hne].
  - apply fold_make_missing_keeps_node. now apply make_missing_dir.
  - apply elem_of_cons in Hin as [->|Hin]; [congruence|].
    apply IH; [assumption|]. intros c. unfold make_missing.
    destruct (os.node_at t q1); [apply Hf|].
    rewrite node_at_insert_ne by assumption. apply Hf.
Qed.

Lemma prefixes_nonempty {A} (l : list A) :
  Forall (fun q => q <> []) (os.prefixes l).
Proof.
  induction l as [|x l IH]; cbn; constructor; [discriminate|].
  apply Forall_fmap. apply Forall_forall. intros q _. discriminate.
Qed.

Lemma prefixes_self {A} (l : list A) : l <> [] -> l ∈ os.prefixes l.
Proof.
  induction l as [|x [|y l] IH]; intros Hl; [congruence|left|].
  change (os.prefixes (x :: y :: l))
    with ([x] :: (cons x <$> os.prefixes (y :: l))).
  right. apply (list_elem_of_fmap_2 (cons x)).
  apply IH. discriminate.
Qed.

Lemma makedirs_Ok_inv p t t' :
  os.makedirs p t = Ok tt t' ->
  os.resolve p <> []
  /\ (forall q c, q ∈ os.prefixes (os.resolve p) ->
                  os.node_at t q <> Some (File c))
  /\ t' = fold_left make_missing (os.prefixes (os.resolve p)) t.
Proof.
  unfold os.makedirs.
  destruct (bool_decide_reflect (os.resolve p = [])) as [Hr|Hr];
    [discriminate|]. cbn [orb].
  destruct (os.path_exists t p); [discriminate|]. cbn [orb].
  destruct (existsb _ (os.prefixes (os.resolve p))) eqn:He; [discriminate|].
  intros [= <-]. split; [assumption|]. split; [|reflexivity].
  intros q c Hq Hn.
  assert (Hex : existsb (fun q => match os.node_at t q with
                                  | Some (File _) => true
                                  | _ => false
                                  end) (os.prefixes (os.resolve p)) = true).
  { apply existsb_exists. exists q. split; [now apply list_elem_of_In|].
    now rewrite Hn. }
  congruence.
Qed.

(** [soft_makedirs] answering [True] has made a directory: the path and
    all its ancestors are directories afterwards, everything that existed
    before is still there, and asking again answers [False] and changes
    nothing. *)
Theorem soft_makedirs_creates (path : string)
    (t t' : gmap (list string) node) :
  LocalFileSystem.soft_makedirs lfs path t = Ok true t' ->
  LocalFileSystem.isdir lfs path t' = Ok true t'
  /\ (forall q, q ∈ os.prefixes (os.resolve (full path)) ->
                os.node_at t' q = Some Dir)
  /\ (forall q n, t !! q = Some n -> t' !! q = Some n)
  /\ LocalFileSystem.soft_makedirs lfs path t' = Ok false t'.
Proof.
  intros Hs.
  assert (Hm : os.makedirs (full path) t = Ok tt t').
  { unfold LocalFileSystem.soft_makedirs, bind, get in Hs. cbn zeta in Hs.
    destruct (os.path_exists t (full path)); cbn [negb] in Hs;
      [discriminate|].
    destruct (os.makedirs (full path) t) as [[] t1|]; [|discriminate].
    now injection Hs as <-. }
  destruct (makedirs_Ok_inv _ _ _ Hm) as (Hr & Hf & ->).
  assert (Hdirs : forall q, q ∈ os.prefixes (os.resolve (full path)) ->
            os.node_at (fold_left make_missing
                          (os.prefixes (os.resolve (full path))) t) q
            = Some Dir).
  { intros q Hq. apply fold_make_missing_dir;
      [apply prefixes_nonempty|assumption|]. intros c. now apply Hf. }
  assert (Hd : os.path_isdir
                 (fold_left make_missing
                    (os.prefixes (os.resolve (full path))) t) (full path)
               = true).
  { unfold os.path_isdir. apply bool_decide_eq_true.
    apply Hdirs. now apply prefixes_self. }
  split.
  { unfold LocalFileSystem.isdir, bind, get, ret. now rewrite Hd. }
  split; [exact Hdirs|]. split.
  { intros q n. apply fold_make_missing_keeps_lookup, prefixes_nonempty. }
  unfold LocalFileSystem.soft_makedirs, bind, get. cbn zeta.
  assert (He : os.path_exists
                 (fold_left make_missing
                    (os.prefixes (os.resolve (full path))) t) (full path)
               = true).
  { unfold os.path_exists. apply bool_decide_eq_true.
    apply bool_decide_eq_true in Hd. unfold os.path_isdir in Hd.
    rewrite Hd. eauto. }
  now rewrite He.
Qed.

Lemma is_prefix_refl (l : list string) : os.is_prefix l l = true.
Proof.
  induction l as [|x l IH]; [reflexivity|].
  cbn. now rewrite bool_decide_eq_true_2, IH.
Qed.

(** [remove] on a directory takes away the directory and everything below
    it and nothing else; afterwards nothing exists at the path. *)
Theorem remove_directory (path : string) (t : gmap (list string) node) :
  os.path_isdir t (full path) = true ->
  os.resolve (full path) <> ["/"] ->
  exists t',
    LocalFileSystem.remove glob_glob lfs path t = Ok tt t'
    /\ (forall q, t' !! q
                  = if os.is_prefix (os.resolve (full path)) q then None
                    else t !! q)
    /\ os.path_exists t' (full path) = false.
Proof.
  intros Hd Hroot.
  exists (filter (fun kv => os.is_prefix (os.resolve (full path)) kv.1 = false)
                 t).
  split; [now apply local_remove_directory|].
  split; [apply lookup_rmtree|].
  unfold os.path_exists. apply bool_decide_eq_false. intros [n Hn].
  assert (Hne : os.resolve (full path) <> [])
    by (intros He; rewrite He in Hn; discriminate).
  rewrite node_at_lookup in Hn by assumption.
  rewrite lookup_rmtree, is_prefix_refl in Hn. discriminate.
Qed.

(** [remove] on a file takes away that file and nothing else; reading the
    path afterwards fails. *)
Theorem remove_file (path : string) (t : gmap (list string) node) :
  os.path_isfile t (full path) = true ->
  exists t',
    LocalFileSystem.remove glob_glob lfs path t = Ok tt t'
    /\ (forall q, t' !! q
                  = if decide (q = os.resolve (full path)) then None
                    else t !! q)
    /\ LocalFileSystem.read lfs path t' = Raise (OSError (full path)) t'.
Proof.
  intros Hf.
  assert (Hn : exists c, os.node_at t (os.resolve (full path)) = Some (File c)).
  { unfold os.path_isfile in Hf.
    destruct (os.node_at t (os.resolve (full path))) as [[|c]|];
      try discriminate. eauto. }
  destruct Hn as (c & Hn).
  assert (H1 : os.resolve (full path) <> [])
    by (intros He; rewrite He in Hn; discriminate).
  assert (H2 : os.resolve (full path) <> ["/"])
    by (intros He; rewrite He in Hn; discriminate).
  exists (delete (os.resolve (full path)) t). split.
  { unfold LocalFileSystem.remove. change recursion_limit with (S 999).
    rewrite remove_depth_S. cbn zeta. unfold bind, get.
    unfold os.path_isdir. rewrite Hn.
    rewrite bool_decide_eq_false_2 by discriminate. now rewrite Hf. }
  split.
  { intros q. destruct (decide (q = os.resolve (full path))) as [->|Hq].
    - apply lookup_delete_eq.
    - now apply lookup_delete_ne. }
  unfold LocalFileSystem.read, LocalFileSystem.read_mode, os.read.
  rewrite node_at_lookup by assumption. now rewrite lookup_delete_eq.
Qed.

Lemma remove_missing_aux (path : string) (t : gmap (list string) node) :
  os.path_exists t (full path) = false ->
  glob_glob t (full (full path)) = [] ->
  LocalFileSystem.remove glob_glob lfs path t
  = Raise (NoFilesFoundError (full path)) t.
Proof.
  intros He Hg. unfold LocalFileSystem.remove.
  change recursion_limit with (S 999). rewrite remove_depth_S. cbn zeta.
  unfold bind, get. unfold os.path_exists in He.
  apply bool_decide_eq_false in He.
  assert (Hn : os.node_at t (os.resolve (full path)) = None).
  { destruct (os.node_at t (os.resolve (full path))); [|reflexivity].
    exfalso. apply He. eauto. }
  unfold os.path_isdir, os.path_isfile. rewrite Hn.
  rewrite bool_decide_eq_false_2 by discriminate.
  unfold LocalFileSystem.glob, bind, get, ret. now rewrite Hg.
Qed.

(** [remove] on a path where nothing exists asks [glob] for matches of
    the path joined to the root a second time, and fails with
    [NoFilesFoundError], changing nothing, when there are none. *)
Theorem remove_missing (path : string) (t : gmap (list string) node) :
  os.path_exists t (full path) = false ->
  glob_glob t (full (full path)) = [] ->
  LocalFileSystem.remove glob_glob lfs path t
  = Raise (NoFilesFoundError (full path)) t.
Proof. apply remove_missing_aux. Qed.

Lemma universal_newlines_plain (s : string) :
  contains_cr s = false -> universal_newlines s = s.
Proof.
  induction s as [|c s IH]; cbn; [reflexivity|].
  destruct (Ascii.eqb c "013"); cbn; [discriminate|].
  intros H. now rewrite IH.
Qed.

(** Round trip of ASCII text: what [write] has stored at a path, a read
    in binary mode returns as it is, and [read] in its default text mode
    returns with the line ends ["\r\n"] and ["\r"] turned into ["\n"],
    hence unchanged when the text holds no carriage return; every other
    path is as before. *)
Theorem write_then_read (obj path : string)
    (t t' : gmap (list string) node) :
  isascii obj = true ->
  LocalFileSystem.write lfs obj path t = Ok tt t' ->
  LocalFileSystem.read lfs path t' = Ok (universal_newlines obj) t'
  /\ LocalFileSystem.read_mode lfs path mode_rb t' = Ok obj t'
  /\ (contains_cr obj = false -> LocalFileSystem.read lfs path t' = Ok obj t')
  /\ forall q, q <> os.resolve (full path) -> t' !! q = t !! q.
Proof.
  intros _. unfold LocalFileSystem.write, os.write.
  destruct (bool_decide_reflect (os.resolve (full path) = [])) as [Hr|Hr];
    [discriminate|]. cbn [orb].
  destruct (os.path_isdir t (full path)) eqn:Hd; [discriminate|]. cbn [orb].
  destruct (negb (os.parent_ok t (os.resolve (full path)))); [discriminate|].
  intros [= <-].
  assert (H2 : os.resolve (full path) <> ["/"]).
  { intros He. unfold os.path_isdir in Hd. rewrite He in Hd. discriminate. }
  assert (Hread : forall mode,
            LocalFileSystem.read_mode lfs path mode
              (<[os.resolve (full path) := File obj]> t)
            = Ok (match mode with
                  | mode_r => universal_newlines obj
                  | mode_rb => obj
                  end)
                 (<[os.resolve (full path) := File obj]> t)).
  { intros mode. unfold LocalFileSystem.read_mode, os.read.
    rewrite node_at_lookup by assumption. now rewrite lookup_insert_eq. }
  split; [apply (Hread mode_r)|]. split; [apply (Hread mode_rb)|]. split.
  - intros Hcr. pose proof (Hread mode_r) as Hr0.
    rewrite (universal_newlines_plain _ Hcr) in Hr0. exact Hr0.
  - intros q Hq. now apply lookup_insert_ne.
Qed.


End LocalMore.

(** ** Version export: when the clean-up fails *)

Section LocalExportMore.
Variable glob_glob : gmap (list string) node -> string -> list string.
Variable ModelFn : Type.
Variable exporters : list (Exporter ModelFn (gmap (list string) node)).
Variable config_write : M (World (gmap (list string) node)) unit.
Variable lfs : LocalFileSystem.t.

Local Abbreviation LFS := (LocalFileSystem.file_system glob_glob).

(** The failure of the clean-up replaces the failure of the export: when
    the body of an export into a directory made by this call fails at a
    point where nothing exists at the directory's path any more, and
    [glob] finds no match, [export_version] raises [NoFilesFoundError]
    for that path instead of what the body raised. *)
Theorem export_version_cleanup_fails (self : Model) (model_fn : ModelFn)
    (version : option Z) (input_shapes : option (list (string * shape)))
    (output_names : option (list string)) (verbose : Z)
    (w w1 w2 w3 : World (gmap (list string) node))
    (exporter : Exporter ModelFn (gmap (list string) node))
    (v : Z) (e : error) :
  let output_dir := LocalFileSystem.join lfs [name self; str v] in
  let path :=
    LocalFileSystem.join lfs [LocalFileSystem.root lfs; output_dir] in
  _find_exporter_loop self model_fn exporters = inr exporter ->
  target_version (H := LFS) lfs self version w = Ok v w1 ->
  on_storage (LocalFileSystem.soft_makedirs lfs output_dir) w1 = Ok true w2 ->
  export_body (H := LFS) lfs config_write self exporter model_fn output_dir
    input_shapes output_names verbose w2 = Raise e w3 ->
  os.path_exists (storage w3) path = false ->
  glob_glob (storage w3)
    (LocalFileSystem.join lfs [LocalFileSystem.root lfs; path]) = [] ->
  export_version (H := LFS) lfs exporters config_write self model_fn
    version input_shapes output_names verbose w
  = Raise (NoFilesFoundError path) w3.
Proof.
  intros output_dir path Hx Hv Hm Hb He Hg.
  unfold export_version.
  erewrite bind_Ok; [|unfold _find_exporter; rewrite Hx; reflexivity].
  rewrite (bind_Ok _ _ _ _ _ Hv). cbn zeta.
  change (fs_soft_makedirs lfs (fs_join lfs [name self; str v]))
    with (LocalFileSystem.soft_makedirs lfs output_dir).
  rewrite (bind_Ok _ _ _ _ _ Hm).
  unfold try_except.
  change (fs_join lfs [name self; str v]) with output_dir.
  rewrite Hb. apply bind_Raise. unfold on_storage.
  change (fs_remove lfs output_dir)
    with (LocalFileSystem.remove glob_glob lfs output_dir).
  rewrite (remove_missing_aux glob_glob lfs output_dir (storage w3) He Hg).
  now destruct w3.
Qed.

End LocalExportMore.

(** ** Models and storage: the properties above at work *)

Lemma export_version_no_exporter_witness :
  Forall (fun y => ~ fits Demo.Ens tt y) [Demo.writing_exporter]
  /\ export_version (H := LocalFileSystem.file_system Demo.no_glob)
       Demo.repo_fs [Demo.writing_exporter] Demo.config_write Demo.Ens tt
       (Some 1) Demo.input_shapes None 0 Demo.fresh_world
     = Raise NoExporterError Demo.fresh_world.
Proof.
  assert (H : Forall (fun y => ~ fits Demo.Ens tt y) [Demo.writing_exporter]).
  { constructor; [|constructor]. intros [Hp _]. discriminate. }
  split; [exact H|].
  apply (export_version_no_exporter
           (H := LocalFileSystem.file_system Demo.no_glob) Demo.repo_fs
           [Demo.writing_exporter] Demo.config_write Demo.Ens tt (Some 1)
           Demo.input_shapes None 0 Demo.fresh_world H).
Defined.


Lemma soft_makedirs_creates_witness :
  LocalFileSystem.soft_makedirs Demo.repo_fs "m/1" Demo.tree_m
  = Ok true Demo.tree_m_1
  /\ LocalFileSystem.isdir Demo.repo_fs "m/1" Demo.tree_m_1
     = Ok true Demo.tree_m_1
  /\ (forall q, q ∈ os.prefixes (os.resolve "repo/m/1") ->
                os.node_at Demo.tree_m_1 q = Some Dir)
  /\ (forall q n, Demo.tree_m !! q = Some n -> Demo.tree_m_1 !! q = Some n)
  /\ LocalFileSystem.soft_makedirs Demo.repo_fs "m/1" Demo.tree_m_1
     = Ok false Demo.tree_m_1.
Proof.
  split; [reflexivity|].
  apply (soft_makedirs_creates Demo.repo_fs "m/1" Demo.tree_m Demo.tree_m_1).
  reflexivity.
Defined.

Lemma remove_directory_witness :
  os.path_isdir Demo.tree_m_1 "repo/m" = true
  /\ os.resolve "repo/m" <> ["/"]
  /\ exists t',
       LocalFileSystem.remove Demo.no_glob Demo.repo_fs "m" Demo.tree_m_1
       = Ok tt t'
       /\ (forall q, t' !! q
                     = if os.is_prefix (os.resolve "repo/m") q then None
                       else Demo.tree_m_1 !! q)
       /\ os.path_exists t' "repo/m" = false.
Proof.
  split; [reflexivity|]. split; [discriminate|].
  apply (remove_directory Demo.no_glob Demo.repo_fs "m" Demo.tree_m_1);
    [reflexivity|discriminate].
Defined.

Lemma remove_file_witness :
  os.path_isfile More.tree_with_file "repo/m/f.txt" = true
  /\ exists t',
       LocalFileSystem.remove Demo.no_glob Demo.repo_fs "m/f.txt"
         More.tree_with_file = Ok tt t'
       /\ (forall q, t' !! q
                     = if decide (q = os.resolve "repo/m/f.txt") then None
                       else More.tree_with_file !! q)
       /\ LocalFileSystem.read Demo.repo_fs "m/f.txt" t'
          = Raise (OSError "repo/m/f.txt") t'.
Proof.
  split; [reflexivity|].
  apply (remove_file Demo.no_glob Demo.repo_fs "m/f.txt" More.tree_with_file).
  reflexivity.
Defined.

Lemma remove_missing_witness :
  os.path_exists Demo.tree_m "repo/zz" = false
  /\ Demo.no_glob Demo.tree_m "repo/repo/zz" = []
  /\ LocalFileSystem.remove Demo.no_glob Demo.repo_fs "zz" Demo.tree_m
     = Raise (NoFilesFoundError "repo/zz") Demo.tree_m.
Proof.
  split; [reflexivity|]. split; [reflexivity|].
  apply (remove_missing Demo.no_glob Demo.repo_fs "zz" Demo.tree_m);
    reflexivity.
Defined.

Lemma write_then_read_witness :
  isascii "data" = true
  /\ LocalFileSystem.write Demo.repo_fs "data" "m/f.txt" Demo.tree_m
     = Ok tt More.tree_with_file
  /\ LocalFileSystem.read Demo.repo_fs "m/f.txt" More.tree_with_file
     = Ok "data" More.tree_with_file
  /\ LocalFileSystem.read_mode Demo.repo_fs "m/f.txt" mode_rb
       More.tree_with_file
     = Ok "data" More.tree_with_file
  /\ (contains_cr "data" = false ->
      LocalFileSystem.read Demo.repo_fs "m/f.txt" More.tree_with_file
      = Ok "data" More.tree_with_file)
  /\ forall q, q <> os.resolve "repo/m/f.txt" ->
               More.tree_with_file !! q = Demo.tree_m !! q.
Proof.
  split; [reflexivity|]. split; [reflexivity|].
  apply (write_then_read Demo.repo_fs "data" "m/f.txt" Demo.tree_m
           More.tree_with_file); reflexivity.
Defined.


Lemma export_version_cleanup_fails_witness :
  _find_exporter_loop Demo.m tt [More.vanishing_exporter]
  = inr More.vanishing_exporter
  /\ export_body (H := LocalFileSystem.file_system Demo.no_glob)
       Demo.repo_fs Demo.config_write Demo.m More.vanishing_exporter tt
       "m/1" Demo.input_shapes None 0 Demo.world_after_mkdir
     = Raise (ExternalError "export") More.world_vanished
  /\ os.path_exists (storage More.world_vanished) "repo/m/1" = false
  /\ export_version (H := LocalFileSystem.file_system Demo.no_glob)
       Demo.repo_fs [More.vanishing_exporter] Demo.config_write Demo.m tt
       (Some 1) Demo.input_shapes None 0 Demo.fresh_world
     = Raise (NoFilesFoundError "repo/m/1") More.world_vanished.
Proof.
  split; [reflexivity|]. split; [reflexivity|]. split; [reflexivity|].
  apply (export_version_cleanup_fails Demo.no_glob unit
           [More.vanishing_exporter] Demo.config_write Demo.repo_fs Demo.m tt
           (Some 1) Demo.input_shapes None 0 Demo.fresh_world
           Demo.fresh_world Demo.world_after_mkdir More.world_vanished
           More.vanishing_exporter 1 (ExternalError "export"));
    reflexivity.
Defined.
